(** * The polar-plant EC dashboard ([main.py]): a shallow embedding

    [main.py] is a Streamlit script: it loads one CSV of sensor readings per
    school and one workbook of growth measurements, intersects the two sets
    of school names, and shows means, a joined growth table and the EC value
    with the best mean fresh weight.

    Conventions of the embedding.
    - A Python [str] is the list of its code points ([list N]).
    - A [float] cell is an exact rational or NaN ([option Qc], [None] being
      NaN): sums and means are the exact ones, so what is proved is the
      script's logic and not the rounding error of binary64 arithmetic.
    - A [dict] keyed by school is a [gmap]; the script only ever reads the
      key sets through [set(...)] and looks keys up, so insertion order is
      not observable.
    - The script's output is the list of Streamlit calls it makes, and a run
      ends by running to the end, by [st.stop()], or by an uncaught
      exception. *)

From Stdlib Require Import QArith Qcanon.
From stdpp Require Import gmap sorting list numbers strings.

Set Warnings "-clear-no-such-hyp".

Abbreviation str := (list N).

(** A literal of the script, as code points (ASCII literals only). *)
Definition py (s : string) : str :=
  Ascii.N_of_ascii <$> String.list_ascii_of_string s.

(** Closed goals over computable data are settled by evaluation. *)
Ltac by_eval := apply (bool_decide_unpack _); vm_compute; exact I.

(** ** [pathlib] and [str] helpers used on file names *)

Definition dot : N := 46.
Definition underscore : N := 95.

(** [s.rfind(c)]: the last index of [c], [None] for Python's [-1]. *)
Fixpoint rfind (c : N) (s : str) : option nat :=
  match s with
  | [] => None
  | x :: s' =>
      match rfind c s' with
      | Some i => Some (S i)
      | None => if decide (x = c) then Some 0 else None
      end
  end.

(** [PurePath.suffix]: from the last dot on, unless the name starts or ends
    with that dot. *)
Definition suffix (name : str) : str :=
  match rfind dot name with
  | Some i =>
      if bool_decide (0 < i) && bool_decide (i < length name - 1)
      then drop i name else []
  | None => []
  end.

(** [PurePath.stem]: the name without its suffix. *)
Definition stem (name : str) : str :=
  match rfind dot name with
  | Some i =>
      if bool_decide (0 < i) && bool_decide (i < length name - 1)
      then take i name else name
  | None => name
  end.

(** [str.lower()] on the letters A-Z. The script compares the result with
    [".csv"] and [".xlsx"] only, and no character outside A-Z lowercases to
    one of the characters of these two literals. *)
Definition lower_char (c : N) : N :=
  if bool_decide (65 ≤ c)%N && bool_decide (c ≤ 90)%N then (c + 32)%N else c.

Definition lower (s : str) : str := lower_char <$> s.

(** [s.split(sep)[0]]: the text before the first [sep], all of [s] when it
    has none. *)
Fixpoint split_first (sep : N) (s : str) : str :=
  match s with
  | [] => []
  | x :: s' => if decide (x = sep) then [] else x :: split_first sep s'
  end.

(** ** [unicodedata.normalize("NFC", _)] *)

(** Modelled from the spec: [unicodedata] is the Python standard library's
    module and not part of this repository; the spec names what it computes
    here, canonical Unicode normalization (NFC). The algorithm below is the
    one of the Unicode Standard (canonical decomposition, canonical ordering,
    canonical composition, with Hangul syllables handled arithmetically); the
    character database it reads is a parameter:
    - [combining c] is the canonical combining class of [c] (0 for a starter);
    - [decomposition c] is the full canonical decomposition of [c], [[]] when
      [c] has none;
    - [composition a b] is the primary composite of the pair [a], [b]. *)
Class UnicodeData := {
  combining : N → N;
  decomposition : N → list N;
  composition : N → N → option N
}.

Definition SBase : N := 0xAC00.
Definition LBase : N := 0x1100.
Definition VBase : N := 0x1161.
Definition TBase : N := 0x11A7.
Definition LCount : N := 19.
Definition VCount : N := 21.
Definition TCount : N := 28.
Definition NCount : N := 588.
Definition SCount : N := 11172.

Definition is_syllable (c : N) : bool :=
  bool_decide (SBase ≤ c)%N && bool_decide (c < SBase + SCount)%N.
Definition is_L (c : N) : bool :=
  bool_decide (LBase ≤ c)%N && bool_decide (c < LBase + LCount)%N.
Definition is_V (c : N) : bool :=
  bool_decide (VBase ≤ c)%N && bool_decide (c < VBase + VCount)%N.
Definition is_T (c : N) : bool :=
  bool_decide (TBase < c)%N && bool_decide (c < TBase + TCount)%N.

(** Modelled from the spec: the arithmetic decomposition of a precomposed
    Hangul syllable into its leading consonant, vowel and optional trailing
    consonant. *)
Definition hangul_decompose (s : N) : list N :=
  let SIndex := (s - SBase)%N in
  let L := (LBase + SIndex / NCount)%N in
  let V := (VBase + (SIndex mod NCount) / TCount)%N in
  let T := (TBase + SIndex mod TCount)%N in
  if bool_decide (T = TBase) then [L; V] else [L; V; T].

(** Modelled from the spec: the arithmetic composition of Hangul, a leading
    consonant with a vowel, and a syllable without trailing consonant with a
    trailing consonant. *)
Definition hangul_compose (a b : N) : option N :=
  if is_L a && is_V b
  then Some (SBase + ((a - LBase) * VCount + (b - VBase)) * TCount)%N
  else if is_syllable a && bool_decide ((a - SBase) mod TCount = 0)%N && is_T b
  then Some (a + (b - TBase))%N
  else None.

Section Normalize.
Context {U : UnicodeData}.

(** Modelled from the spec: the full canonical decomposition of one
    character. *)
Definition decompose_char (c : N) : list N :=
  if is_syllable c then hangul_decompose c
  else match decomposition c with
       | [] => [c]
       | d => d
       end.

(** Modelled from the spec: the canonical decomposition of a string, each
    character replaced by its full decomposition. *)
Definition decompose (s : str) : str := s ≫= decompose_char.

(** Modelled from the spec: canonical ordering. A character that is not a
    starter moves behind the following characters of a lower, non-zero
    combining class; it never passes a starter and never passes a character
    of its own class, so the ordering is stable. *)
Fixpoint reorder_insert (c : N) (l : str) : str :=
  match l with
  | [] => [c]
  | d :: l' =>
      if bool_decide (0 < combining d)%N && bool_decide (combining d < combining c)%N
      then d :: reorder_insert c l'
      else c :: l
  end.

(** Modelled from the spec: the canonical ordering of a string. *)
Fixpoint canonical_order (s : str) : str :=
  match s with
  | [] => []
  | c :: s' => reorder_insert c (canonical_order s')
  end.

(** Modelled from the spec: normalization form D. *)
Definition nfd (s : str) : str := canonical_order (decompose s).

(** Modelled from the spec: the primary composite of a pair. *)
Definition compose_pair (a b : N) : option N :=
  match hangul_compose a b with
  | Some s => Some s
  | None => composition a b
  end.

(** Modelled from the spec: [c] is blocked from the last starter when a
    character between them is a starter or has a combining class at least
    that of [c]; [pending] holds the characters between them. *)
Definition blocked (pending : str) (c : N) : bool :=
  existsb (λ b, bool_decide (combining b = 0)%N
                || bool_decide (combining c ≤ combining b)%N) pending.

(** Modelled from the spec: canonical composition after the last starter
    [L]: each following character that is not blocked and has a primary
    composite with [L] is merged into [L]; a starter that is not merged
    becomes the next [L]. *)
Fixpoint compose_run (L : N) (pending rest : str) : str :=
  match rest with
  | [] => L :: pending
  | c :: rest' =>
      match (if blocked pending c then None else compose_pair L c) with
      | Some P => compose_run P pending rest'
      | None =>
          if bool_decide (combining c = 0)%N
          then L :: pending ++ compose_run c [] rest'
          else compose_run L (pending ++ [c]) rest'
      end
  end.

(** Modelled from the spec: canonical composition of a string; characters
    before the first starter are left as they are. *)
Fixpoint canonical_composition (s : str) : str :=
  match s with
  | [] => []
  | c :: s' =>
      if bool_decide (combining c = 0)%N then compose_run c [] s'
      else c :: canonical_composition s'
  end.

(** Modelled from the spec: normalization form C, the canonical composition
    of form D. *)
Definition nfc (s : str) : str := canonical_composition (nfd s).

(** [normalize_name(name)] (main.py, lines 31-32). *)
Definition normalize_name (name : str) : str := nfc name.

(** A character that decomposes to itself. *)
Definition inert (c : N) : Prop := decompose_char c = [c].

(** A string in canonical order: no character that is not a starter comes
    right after a character of a higher combining class. *)
Fixpoint ordered (s : str) : Prop :=
  match s with
  | a :: (b :: _) as s' =>
      ¬ (0 < combining b ∧ combining b < combining a)%N ∧ ordered s'
  | _ => True
  end.

(** Modelled from the spec: what the Unicode Standard guarantees of the
    character database and the normalization proofs rely on.
    - The full canonical decomposition of a character consists of characters
      that have no decomposition and are no precomposed Hangul syllables.
    - A primary composite is no Hangul syllable (these are composed
      arithmetically) and its full decomposition is that of its first
      character followed by that of its second.
    - The conjoining jamo of Hangul syllables have no decomposition. *)
Record coherent : Prop := {
  decomposition_stable : ∀ c c',
    c' ∈ decomposition c → decomposition c' = [] ∧ is_syllable c' = false;
  composition_decomposes : ∀ a b p,
    composition a b = Some p →
    is_syllable p = false ∧
    decomposition p = decompose_char a ++ decompose_char b;
  jamo_undecomposed : ∀ c,
    is_L c || is_V c || is_T c = true → decomposition c = []
}.

End Normalize.

(** ** Tables *)

(** A [float] cell of a pandas column: an exact value, or NaN. *)
Abbreviation float := (option Qc).

Definition of_Z (z : Z) : Qc := Q2Qc (inject_Z z).

Definition Qc_sum (xs : list Qc) : Qc := foldr Qcplus (of_Z 0) xs.

(** [Series.mean()] with its default [skipna=True]: the mean of the cells
    that are not NaN, and NaN when there is none. *)
Definition mean (col : list float) : float :=
  match omap id col with
  | [] => None
  | xs => Some (Qc_sum xs / of_Z (Z.of_nat (length xs)))%Qc
  end.

(** The four sensor columns of one row of an environment CSV, the columns
    the script reads besides [time]; a file is taken to have them. *)
Record Reading := {
  temperature : float;
  humidity : float;
  ph : float;
  ec : float
}.

(** What [pd.read_csv] makes of an environment file: its rows, with the text
    of the [time] cell when the file has a [time] column. *)
Inductive CsvTable :=
| csv_without_time (rows : list Reading)
| csv_with_time (rows : list (str * Reading)).

(** A row of an environment frame once [time] is a timestamp, a
    [datetime64] value counted from the epoch (NaT, which pandas makes of an
    empty cell, is one such value). *)
Record EnvRecord := {
  time : Z;
  reading : Reading
}.

(** A row of a sheet of the growth workbook: the columns [잎 수(장)],
    [지상부 길이(mm)] and [생중량(g)], the ones the script reads. *)
Record Measurement := {
  leaf_count : float;
  shoot_length : float;
  fresh_weight : float
}.

(** A row of a growth frame: the sheet's row and the [학교] column the loader
    adds. *)
Record GrowthRecord := {
  school : str;
  measured : Measurement
}.

(** A row of [growth_all]: a growth row and its [EC] column. *)
Record JoinedRow := {
  growth : GrowthRecord;
  EC : float
}.

(** ** The data directory *)

(** What pandas reads from a directory entry: a table of sensor readings, the
    sheets of a workbook by name, or nothing it can read. *)
Inductive Content :=
| csv_text (table : CsvTable)
| workbook (sheets : list (str * list Measurement))
| unreadable.

(** An entry of [data_dir.iterdir()]: its name and what pandas reads from
    it. *)
Record File := {
  name : str;
  content : Content
}.

(** An uncaught Python exception: [KeyError] for a column or key that is
    not there, [ValueError] for a value pandas rejects, [ParserError] for a
    file [pd.read_csv] cannot read. *)
Inductive exn :=
| KeyError
| ValueError
| ParserError.

(** [pd.to_datetime] on one cell: the timestamp, or [None] when the text
    does not parse (pandas raises, [errors="raise"] being the default). *)
Class DateParser := { parse_datetime : str → option Z }.

Global Instance Reading_eq_dec : EqDecision Reading.
Proof. solve_decision. Defined.
Global Instance EnvRecord_eq_dec : EqDecision EnvRecord.
Proof. solve_decision. Defined.
Global Instance Measurement_eq_dec : EqDecision Measurement.
Proof. solve_decision. Defined.
Global Instance GrowthRecord_eq_dec : EqDecision GrowthRecord.
Proof. solve_decision. Defined.
Global Instance JoinedRow_eq_dec : EqDecision JoinedRow.
Proof. solve_decision. Defined.
Global Instance exn_eq_dec : EqDecision exn.
Proof. solve_decision. Defined.
Global Instance CsvTable_eq_dec : EqDecision CsvTable.
Proof. solve_decision. Defined.
Global Instance Content_eq_dec : EqDecision Content.
Proof. solve_decision. Defined.
Global Instance File_eq_dec : EqDecision File.
Proof. solve_decision. Defined.

(** ** The loaders (main.py, lines 37-66) *)

Section Loaders.
Context {U : UnicodeData} {P : DateParser}.

(** [df["time"] = pd.to_datetime(df["time"])] on the rows of one file: every
    cell must parse. *)
Fixpoint to_datetime (rows : list (str * Reading)) : exn + list EnvRecord :=
  match rows with
  | [] => inr []
  | (t, r) :: rows' =>
      match parse_datetime t with
      | None => inl ValueError
      | Some ts =>
          match to_datetime rows' with
          | inl e => inl e
          | inr recs => inr ({| time := ts; reading := r |} :: recs)
          end
      end
  end.

(** Lines 43-44 for one file: [pd.read_csv(f)], then the [time] column (a
    [KeyError] when the file has none) parsed. *)
Definition read_environment (f : File) : exn + list EnvRecord :=
  match content f with
  | csv_text (csv_with_time rows) => to_datetime rows
  | csv_text (csv_without_time _) => inl KeyError
  | _ => inl ParserError
  end.

(** The test of line 41 and the key of line 42 for one directory entry. *)
Definition is_csv (f : File) : Prop := lower (suffix (name f)) = py ".csv".

Global Instance is_csv_dec f : Decision (is_csv f).
Proof. unfold is_csv. apply _. Defined.

Definition env_school (f : File) : str :=
  normalize_name (split_first underscore (stem (name f))).

(** A file whose [time] column is missing, or holds a cell that does not
    parse. *)
Definition bad_time (f : File) : Prop :=
  match content f with
  | csv_text (csv_without_time _) => True
  | csv_text (csv_with_time rows) =>
      ∃ row, row ∈ rows ∧ parse_datetime row.1 = None
  | _ => False
  end.

(** A frame that holds the rows of a file one for one, in order, each with
    its [time] cell parsed. *)
Definition parsed_rows (rows : list (str * Reading)) (df : list EnvRecord) : Prop :=
  Forall2 (λ row rec, parse_datetime row.1 = Some (time rec) ∧ reading rec = row.2)
          rows df.

(** The loop of [load_environment_data] over the directory entries, with the
    dictionary built so far. *)
Fixpoint load_environment_loop (files : list File)
    (env_data : gmap str (list EnvRecord)) : exn + gmap str (list EnvRecord) :=
  match files with
  | [] => inr env_data
  | f :: files' =>
      if decide (lower (suffix (name f)) = py ".csv") then
        let school := normalize_name (split_first underscore (stem (name f))) in
        match read_environment f with
        | inl e => inl e
        | inr df => load_environment_loop files' (<[school := df]> env_data)
        end
      else load_environment_loop files' env_data
  end.

Definition load_environment_data (data_dir : list File)
    : exn + gmap str (list EnvRecord) :=
  load_environment_loop data_dir ∅.

(** Lines 50-54: the first entry whose suffix is [.xlsx]. *)
Fixpoint find_xlsx (files : list File) : option File :=
  match files with
  | [] => None
  | f :: files' =>
      if decide (lower (suffix (name f)) = py ".xlsx") then Some f
      else find_xlsx files'
  end.

(** Lines 61-65: one frame per sheet, each row tagged with the school. *)
Fixpoint load_sheets (sheets : list (str * list Measurement))
    (growth : gmap str (list GrowthRecord)) : gmap str (list GrowthRecord) :=
  match sheets with
  | [] => growth
  | (sheet, rows) :: sheets' =>
      let school := normalize_name sheet in
      let df := (λ r, {| school := school; measured := r |}) <$> rows in
      load_sheets sheets' (<[school := df]> growth)
  end.

(** The test of line 52 for one directory entry. *)
Definition is_xlsx (f : File) : Prop := lower (suffix (name f)) = py ".xlsx".

Global Instance is_xlsx_dec f : Decision (is_xlsx f).
Proof. unfold is_xlsx. apply _. Defined.

Definition load_growth_data (data_dir : list File)
    : exn + gmap str (list GrowthRecord) :=
  match find_xlsx data_dir with
  | None => inr ∅
  | Some xlsx_file =>
      match content xlsx_file with
      | workbook sheets => inr (load_sheets sheets ∅)
      | _ => inl ValueError
      end
  end.

End Loaders.

(** Every row of a growth frame carries the key of its frame in its [학교]
    column. *)
Definition tagged (growth_data : gmap str (list GrowthRecord)) : Prop :=
  ∀ s rows, growth_data !! s = Some rows → Forall (λ r, school r = s) rows.

(** ** The common schools (main.py, lines 85-96) *)

(** The order of [str] values, used by [sorted]: lexicographic on code
    points, a proper prefix first. *)
Fixpoint str_leb (a b : str) : bool :=
  match a, b with
  | [], _ => true
  | _ :: _, [] => false
  | x :: a', y :: b' =>
      if bool_decide (x < y)%N then true
      else if bool_decide (x = y) then str_leb a' b'
      else false
  end.

Definition str_le (a b : str) : Prop := str_leb a b.

Global Instance str_le_dec : RelDecision str_le.
Proof. intros a b. unfold str_le. apply _. Defined.

(** Line 88: [sorted(set(env_data.keys()) & set(growth_data.keys()))]. *)
Definition common_schools (env_data : gmap str (list EnvRecord))
    (growth_data : gmap str (list GrowthRecord)) : list str :=
  merge_sort str_le (elements (dom env_data ∩ dom growth_data)).

(** Line 94: [set(growth_data.keys()) - set(env_data.keys())]. *)
Definition missing_env (env_data : gmap str (list EnvRecord))
    (growth_data : gmap str (list GrowthRecord)) : gset str :=
  dom growth_data ∖ dom env_data.

(** ** The aggregations (main.py, lines 121-145, 159-170, 201, 220) *)

(** [round(x, 2)] on an exact value: the nearest multiple of 1/100, a tie
    going to the even multiple; NaN stays NaN. *)
Definition round_half_even (q : Qc) : Z :=
  let n := (Qnum q * 100)%Z in
  let d := Z.pos (Qden q) in
  let lo := (n / d)%Z in
  let r := (n mod d)%Z in
  if bool_decide (2 * r < d)%Z then lo
  else if bool_decide (d < 2 * r)%Z then (lo + 1)%Z
  else if Z.even lo then lo else (lo + 1)%Z.

Definition round2 (x : float) : float :=
  (λ q, Q2Qc (round_half_even q # 100)) <$> x.

(** A row of [summary_df]: the columns [학교명], [EC 목표] and [개체수]. *)
Record SummaryRow := {
  summary_school : str;
  ec_target : float;
  individual_count : nat
}.

(** A row of [avg_df]. *)
Record EnvAverage := {
  avg_school : str;
  avg_temperature : float;
  avg_humidity : float;
  avg_ph : float;
  avg_ec : float
}.

Global Instance SummaryRow_eq_dec : EqDecision SummaryRow.
Proof. solve_decision. Defined.
Global Instance EnvAverage_eq_dec : EqDecision EnvAverage.
Proof. solve_decision. Defined.

Section Aggregation.
Variable env_data : gmap str (list EnvRecord).
Variable growth_data : gmap str (list GrowthRecord).

(** [env_data[s][column]] and [growth_data[s]]; the script indexes the two
    dictionaries with common schools only. *)
Definition env_column (column : Reading → float) (s : str) : list float :=
  (column ∘ reading) <$> (env_data !!! s).

Definition growth_frame (s : str) : list GrowthRecord := growth_data !!! s.

(** [env_data[s]["ec"].mean()]. *)
Definition school_ec_mean (s : str) : float := mean (env_column ec s).

(** Lines 121-135: the rows of [summary_df]. *)
Definition summary : list SummaryRow :=
  (λ s, {| summary_school := s;
           ec_target := round2 (school_ec_mean s);
           individual_count := length (growth_frame s) |})
  <$> common_schools env_data growth_data.

(** Line 127 accumulated: [total_plants]. *)
Definition total_plants : nat :=
  foldr (λ s acc, length (growth_frame s) + acc) 0
        (common_schools env_data growth_data).

(** Lines 138-139: the mean of a column over all common schools. *)
Definition overall_mean (column : Reading → float) : float :=
  mean (common_schools env_data growth_data ≫= env_column column).

(** Line 142: [ec_map]. *)
Definition ec_map : gmap str float :=
  list_to_map ((λ s, (s, school_ec_mean s)) <$> common_schools env_data growth_data).

(** Lines 141-143: [growth_all], the frames of the common schools one after
    the other, with the [EC] column looked up in [ec_map] ([Series.map] gives
    NaN for a school that is not a key). *)
Definition growth_all : list JoinedRow :=
  (λ r, {| growth := r; EC := default None (ec_map !! school r) |})
  <$> (common_schools env_data growth_data ≫= growth_frame).

(** Lines 159-170: the rows of [avg_df]. *)
Definition avg_env : list EnvAverage :=
  (λ s, {| avg_school := s;
           avg_temperature := mean (env_column temperature s);
           avg_humidity := mean (env_column humidity s);
           avg_ph := mean (env_column ph s);
           avg_ec := mean (env_column ec s) |})
  <$> common_schools env_data growth_data.

(** Line 201: [all_env]. *)
Definition all_env : list EnvRecord :=
  common_schools env_data growth_data ≫= (λ s, env_data !!! s).

End Aggregation.

(** The two columns of [growth_all] that [groupby("EC")["생중량(g)"]]
    reads. *)
Definition ec_weight (rows : list JoinedRow) : list (float * float) :=
  (λ r, (EC r, fresh_weight (measured (growth r)))) <$> rows.

(** [df.groupby("EC")["생중량(g)"].mean()] on these two columns: one group
    per distinct [EC] value that is not NaN (pandas drops NaN keys), the
    groups in ascending order of [EC], each with the mean of its fresh
    weights. *)
Definition group_keys (cols : list (float * float)) : list Qc :=
  merge_sort Qcle (remove_dups (omap fst cols)).

Definition group_values (k : Qc) (cols : list (float * float)) : list float :=
  snd <$> filter (λ kv, kv.1 = Some k) cols.

Definition groupby_mean (cols : list (float * float)) : list (Qc * float) :=
  (λ k, (k, mean (group_values k cols))) <$> group_keys cols.

(** [Series.idxmax()]: the label of the first maximum among the values that
    are not NaN. [best] is the label and value of the maximum so far. On a
    series with no such value there is no label to return ([None]): pandas
    raises [ValueError] on an empty series. *)
Fixpoint idxmax_loop (best : option (Qc * Qc)) (s : list (Qc * float))
    : option (Qc * Qc) :=
  match s with
  | [] => best
  | (k, None) :: s' => idxmax_loop best s'
  | (k, Some v) :: s' =>
      match best with
      | None => idxmax_loop (Some (k, v)) s'
      | Some (_, b) =>
          if decide (b < v)%Qc then idxmax_loop (Some (k, v)) s'
          else idxmax_loop best s'
      end
  end.

Definition idxmax (s : list (Qc * float)) : option Qc :=
  fst <$> idxmax_loop None s.

(** Line 145: [optimal_ec]. *)
Definition optimal_ec (rows : list JoinedRow) : option Qc :=
  idxmax (groupby_mean (ec_weight rows)).

(** ** The script as a whole *)

(** The three [st.error] messages of the script (lines 75, 82 and 91). *)
Inductive message :=
| no_data_folder
| no_data_files
| no_common_school.

(** The Streamlit calls that show data, in the order the script makes them.
    Static text (markdown, sub-headers, tab labels) is left out. *)
Inductive event :=
| st_error (m : message)
| st_warning (missing : gset str)
| st_selectbox (options : list str)
| st_title
| st_dataframe_summary (rows : list SummaryRow)
| st_metrics (plants : nat) (avg_temp avg_hum : float) (best_ec : Qc)
| st_chart_env_averages (rows : list EnvAverage)
| st_chart_time_series (rows : list EnvRecord)
| st_dataframe_env (rows : list EnvRecord)
| st_chart_ec_means (rows : list (Qc * float))
| st_charts_growth (rows : list JoinedRow).

(** How a part of the script ends when it does not run on: [st.stop()], or
    an exception nobody catches. *)
Inductive halt :=
| stopped
| raised (e : exn).

(** A part of the script: what it showed, and its value unless it halted. *)
Definition script (A : Type) : Type := list event * (halt + A).

Global Instance script_ret : MRet script := λ A a, ([], inr a).

Global Instance script_bind : MBind script := λ A B f m,
  match m with
  | (shown, inl h) => (shown, inl h)
  | (shown, inr a) => let '(shown', r) := f a in (shown ++ shown', r)
  end.

Definition show (e : event) : script unit := ([e], inr tt).
Definition st_stop {A} : script A := ([], inl stopped).
Definition raise {A} (e : exn) : script A := ([], inl (raised e)).

Definition try_ {A} (r : exn + A) : script A :=
  match r with
  | inl e => raise e
  | inr a => mret a
  end.

Definition when (b : bool) (m : script unit) : script unit :=
  if b then m else mret tt.

(** The label [전체] (all schools) of the select box. *)
Definition all_label : str := [0xC804; 0xCCB4]%N.

Global Instance message_eq_dec : EqDecision message.
Proof. solve_decision. Defined.
Global Instance event_eq_dec : EqDecision event.
Proof. solve_decision. Defined.
Global Instance halt_eq_dec : EqDecision halt.
Proof. solve_decision. Defined.

Section Script.
Context {U : UnicodeData} {P : DateParser}.

(** Lines 85-96: the common schools, the halt when there is none, and the
    warning about growth schools without environment data. *)
Definition reconcile (env_data : gmap str (list EnvRecord))
    (growth_data : gmap str (list GrowthRecord)) : script (list str) :=
  let common := common_schools env_data growth_data in
  when (bool_decide (length common = 0))
       (show (st_error no_common_school);; st_stop);;
  let missing := missing_env env_data growth_data in
  when (bool_decide (missing ≠ ∅)) (show (st_warning missing));;
  mret common.

(** Lines 113-151: the overview tab. *)
Definition tab1 (env_data : gmap str (list EnvRecord))
    (growth_data : gmap str (list GrowthRecord)) : script unit :=
  show (st_dataframe_summary (summary env_data growth_data));;
  let avg_temp := overall_mean env_data growth_data temperature in
  let avg_hum := overall_mean env_data growth_data humidity in
  match optimal_ec (growth_all env_data growth_data) with
  | None => raise ValueError
  | Some best =>
      show (st_metrics (total_plants env_data growth_data) avg_temp avg_hum best)
  end.

(** Lines 156-212: the environment tab; [selected] is the value of the
    select box. *)
Definition tab2 (env_data : gmap str (list EnvRecord))
    (growth_data : gmap str (list GrowthRecord)) (selected : str) : script unit :=
  show (st_chart_env_averages (avg_env env_data growth_data));;
  when (bool_decide (selected ≠ all_label))
       (match env_data !! selected with
        | None => raise KeyError
        | Some df => show (st_chart_time_series df)
        end);;
  show (st_dataframe_env (all_env env_data growth_data)).

(** Lines 217-270: the growth tab. *)
Definition tab3 (env_data : gmap str (list EnvRecord))
    (growth_data : gmap str (list GrowthRecord)) : script unit :=
  show (st_chart_ec_means (groupby_mean (ec_weight (growth_all env_data growth_data))));;
  show (st_charts_growth (growth_all env_data growth_data)).

(** The script from line 71 on. [data_dir] is the listing of the [data]
    folder, [None] when the folder does not exist; [selected] is what the
    user picks in the select box. *)
Definition main (data_dir : option (list File)) (selected : str) : script unit :=
  match data_dir with
  | None => show (st_error no_data_folder);; st_stop
  | Some files =>
      env_data ← try_ (load_environment_data files);
      growth_data ← try_ (load_growth_data files);
      when (bool_decide (env_data = ∅) || bool_decide (growth_data = ∅))
           (show (st_error no_data_files);; st_stop);;
      common ← reconcile env_data growth_data;
      show (st_selectbox (all_label :: common));;
      show st_title;;
      tab1 env_data growth_data;;
      tab2 env_data growth_data selected;;
      tab3 env_data growth_data
  end.

End Script.

(** Whether an event puts data of the dashboard on the page: an aggregated
    table, a metric or a chart. *)
Definition is_dashboard (e : event) : bool :=
  match e with
  | st_error _ | st_warning _ => false
  | _ => true
  end.

(** ** Sample data *)

(** A small character database: the letter e, the combining acute accent
    (class 230) and cedilla (class 202), and the two precomposed letters. *)
Definition sample_combining (c : N) : N :=
  if bool_decide (c = 0x301)%N then 230%N
  else if bool_decide (c = 0x327)%N then 202%N
  else 0%N.

Definition sample_decomposition (c : N) : list N :=
  if bool_decide (c = 0xE9)%N then [0x65; 0x301]%N
  else if bool_decide (c = 0x229)%N then [0x65; 0x327]%N
  else [].

Definition sample_composition (a b : N) : option N :=
  if bool_decide (a = 0x65)%N && bool_decide (b = 0x301)%N then Some 0xE9%N
  else if bool_decide (a = 0x65)%N && bool_decide (b = 0x327)%N then Some 0x229%N
  else None.

Definition sample_unicode : UnicodeData := {|
  combining := sample_combining;
  decomposition := sample_decomposition;
  composition := sample_composition
|}.

(** A parser of timestamps written as decimal seconds. *)
Fixpoint parse_digits (acc : Z) (s : str) : option Z :=
  match s with
  | [] => Some acc
  | c :: s' =>
      if bool_decide (48 ≤ c)%N && bool_decide (c ≤ 57)%N
      then parse_digits (10 * acc + (Z.of_N c - 48))%Z s'
      else None
  end.

Definition sample_parser : DateParser := {|
  parse_datetime := λ s, match s with [] => None | _ => parse_digits 0 s end
|}.

Definition sample_reading (e : Z) : Reading :=
  {| temperature := Some (of_Z 20); humidity := Some (of_Z 55);
     ph := Some (of_Z 6); ec := Some (of_Z e) |}.

Definition sample_record (t e : Z) : EnvRecord :=
  {| time := t; reading := sample_reading e |}.

Definition sample_plant (w : Z) : Measurement :=
  {| leaf_count := Some (of_Z 5); shoot_length := Some (of_Z 40);
     fresh_weight := Some (of_Z w) |}.

Definition sample_row (s : string) (w : Z) : GrowthRecord :=
  {| school := py s; measured := sample_plant w |}.

Definition csv_A : File :=
  {| name := py "A_env.csv";
     content := csv_text (csv_with_time
       [(py "100", sample_reading 1); (py "200", sample_reading 1);
        (py "300", sample_reading 2)]) |}.

Definition csv_B : File :=
  {| name := py "B_env.CSV";
     content := csv_text (csv_with_time
       [(py "100", sample_reading 2); (py "200", sample_reading 2)]) |}.

Definition xlsx_AB : File :=
  {| name := py "growth.xlsx";
     content := workbook [(py "A", [sample_plant 10; sample_plant 12]);
                          (py "B", [sample_plant 20; sample_plant 22])] |}.

Definition xlsx_C : File :=
  {| name := py "growth.xlsx";
     content := workbook [(py "C", [sample_plant 30])] |}.

(** The dictionaries the loaders make of these files. *)
Definition env_A : gmap str (list EnvRecord) :=
  {[ py "A" := [sample_record 100 1; sample_record 200 1; sample_record 300 2] ]}.

Definition env_AB : gmap str (list EnvRecord) :=
  <[ py "B" := [sample_record 100 2; sample_record 200 2] ]> env_A.

Definition growth_AB : gmap str (list GrowthRecord) :=
  {[ py "A" := [sample_row "A" 10; sample_row "A" 12];
     py "B" := [sample_row "B" 20; sample_row "B" 22] ]}.

Definition growth_C : gmap str (list GrowthRecord) :=
  {[ py "C" := [sample_row "C" 30] ]}.

Definition csv_A2 : File :=
  {| name := py "A_env_2.csv";
     content := csv_text (csv_with_time [(py "400", sample_reading 3)]) |}.

Definition csv_bad : File :=
  {| name := py "B_env.csv";
     content := csv_text (csv_with_time
       [(py "100", sample_reading 2); (py "noon", sample_reading 2)]) |}.

Definition xlsx_AC : File :=
  {| name := py "growth.xlsx";
     content := workbook [(py "A", [sample_plant 10; sample_plant 12]);
                          (py "C", [sample_plant 30])] |}.

Definition growth_AC : gmap str (list GrowthRecord) :=
  {[ py "A" := [sample_row "A" 10; sample_row "A" 12];
     py "C" := [sample_row "C" 30] ]}.

Definition xlsx_A0 : File :=
  {| name := py "growth.xlsx"; content := workbook [(py "A", [])] |}.

Definition growth_A0 : gmap str (list GrowthRecord) := {[ py "A" := [] ]}.

(** * Properties *)

(** ** Normalization *)

Ltac divmod := zify; Z.to_euclidean_division_equations; lia.

Ltac unfold_hangul :=
  unfold is_syllable, is_L, is_V, is_T, SBase, LBase, VBase, TBase,
         LCount, VCount, TCount, NCount, SCount in *.

(** The jamo that [hangul_decompose] returns are conjoining jamo. *)
Lemma hangul_decompose_jamo (s c : N) :
  is_syllable s = true → c ∈ hangul_decompose s →
  is_L c || is_V c || is_T c = true ∧ is_syllable c = false.
Proof.
  intros Hs. unfold hangul_decompose.
  apply andb_true_iff in Hs as [Hlo Hhi].
  apply bool_decide_eq_true in Hlo, Hhi.
  unfold_hangul.
  case_bool_decide as HT; intros Hc;
    repeat (apply elem_of_cons in Hc as [->|Hc]);
    try (by apply elem_of_nil in Hc);
    (split; [|apply andb_false_iff]);
    rewrite ?orb_true_iff, ?andb_true_iff, ?bool_decide_eq_true, ?bool_decide_eq_false;
    divmod.
Qed.

Section NormalizeFacts.
Context {U : UnicodeData} (HU : coherent).

Lemma decompose_char_jamo (c : N) :
  is_L c || is_V c || is_T c = true → is_syllable c = false → inert c.
Proof.
  intros Hj Hs. unfold inert, decompose_char.
  by rewrite Hs, (jamo_undecomposed HU c Hj).
Qed.

(** A full decomposition decomposes no further. *)
Lemma decompose_char_inert (c c' : N) : c' ∈ decompose_char c → inert c'.
Proof.
  unfold decompose_char. destruct (is_syllable c) eqn:Hs.
  - intros Hin. destruct (hangul_decompose_jamo c c' Hs Hin).
    by apply decompose_char_jamo.
  - destruct (decomposition c) as [|d ds] eqn:Hd.
    + intros ->%list_elem_of_singleton. unfold inert, decompose_char.
      by rewrite Hs, Hd.
    + intros Hin. rewrite <- Hd in Hin.
      destruct (decomposition_stable HU c c' Hin) as [Hd' Hs'].
      unfold inert, decompose_char. by rewrite Hs', Hd'.
Qed.

Lemma decompose_char_nonempty (c : N) : decompose_char c ≠ [].
Proof.
  unfold decompose_char, hangul_decompose.
  destruct (is_syllable c); [by case_bool_decide|].
  by destruct (decomposition c).
Qed.

Lemma decompose_inert (s : str) : Forall inert s → decompose s = s.
Proof.
  unfold decompose. induction 1 as [|c s Hc _ IH]; [done|].
  cbn [mbind list_bind]. fold (s ≫= decompose_char). by rewrite Hc, IH.
Qed.

Lemma decompose_app (s t : str) : decompose (s ++ t) = decompose s ++ decompose t.
Proof. unfold decompose. apply bind_app. Qed.

Lemma decompose_cons (c : N) (s : str) :
  decompose (c :: s) = decompose_char c ++ decompose s.
Proof. done. Qed.

Lemma Forall_inert_decompose (s : str) : Forall inert (decompose s).
Proof.
  apply Forall_forall. intros c' Hin. unfold decompose in Hin.
  apply list_elem_of_bind in Hin as (c & Hin & _).
  by eapply decompose_char_inert.
Qed.

(** The arithmetic composition of Hangul inverts the arithmetic
    decomposition. *)
Lemma hangul_compose_decomposes (a b s : N) :
  hangul_compose a b = Some s →
  is_syllable s = true ∧ hangul_decompose s = decompose_char a ++ decompose_char b.
Proof.
  unfold hangul_compose.
  destruct (is_L a && is_V b) eqn:HLV.
  - intros [= <-]. apply andb_true_iff in HLV as [HL HV].
    assert (Ha : inert a).
    { apply decompose_char_jamo; [by rewrite HL|].
      revert HL. unfold_hangul.
      rewrite andb_true_iff, andb_false_iff, !bool_decide_eq_true, !bool_decide_eq_false.
      lia. }
    assert (Hb : inert b).
    { apply decompose_char_jamo; [by rewrite HV, orb_true_r|].
      revert HV. unfold_hangul.
      rewrite andb_true_iff, andb_false_iff, !bool_decide_eq_true, !bool_decide_eq_false.
      lia. }
    rewrite Ha, Hb. revert HL HV. unfold hangul_decompose. unfold_hangul.
    rewrite !andb_true_iff, !bool_decide_eq_true. intros [??] [??].
    split; [split; lia|].
    rewrite bool_decide_eq_true_2 by divmod.
    simpl. f_equal; [divmod|]. f_equal. divmod.
  - destruct (is_syllable a && bool_decide ((a - SBase) mod TCount = 0)%N && is_T b)
      eqn:HST; [|done].
    intros [= <-]. apply andb_true_iff in HST as [HS HT].
    apply andb_true_iff in HS as [HS HLV'].
    assert (Hb : inert b).
    { apply decompose_char_jamo; [by rewrite HT, orb_true_r|].
      revert HT. unfold_hangul.
      rewrite andb_true_iff, andb_false_iff, !bool_decide_eq_true, !bool_decide_eq_false.
      lia. }
    rewrite Hb. unfold decompose_char. rewrite HS.
    revert HS HLV' HT. unfold hangul_decompose. unfold_hangul.
    rewrite !andb_true_iff, !bool_decide_eq_true. intros [??] ? [??].
    split; [split; divmod|].
    rewrite (bool_decide_eq_true_2 (_ + (a - _) mod _ = _)%N) by divmod.
    rewrite bool_decide_eq_false_2 by divmod.
    simpl. f_equal; [divmod|]. f_equal; [divmod|]. f_equal. divmod.
Qed.

(** The full decomposition of a composite is that of its two parts. *)
Lemma compose_pair_decomposes (a b p : N) :
  compose_pair a b = Some p →
  decompose_char p = decompose_char a ++ decompose_char b.
Proof.
  unfold compose_pair. destruct (hangul_compose a b) as [s|] eqn:Hh.
  - intros [= <-]. destruct (hangul_compose_decomposes a b s Hh) as [Hs Hd].
    unfold decompose_char at 1. by rewrite Hs.
  - intros Hc. destruct (composition_decomposes HU a b p Hc) as [Hs Hd].
    unfold decompose_char at 1. rewrite Hs, Hd.
    destruct (decompose_char a ++ decompose_char b) eqn:Happ; [|done].
    apply app_eq_nil in Happ as [Ha _]. by apply decompose_char_nonempty in Ha.
Qed.

(** *** Canonical ordering *)

Lemma reorder_insert_starter (c : N) (s : str) :
  combining c = 0%N → reorder_insert c s = c :: s.
Proof.
  intros Hc. destruct s as [|d s]; [done|]. simpl.
  rewrite Hc. rewrite (bool_decide_eq_false_2 (_ < 0)%N) by lia.
  by rewrite andb_false_r.
Qed.

Lemma reorder_insert_before_starter (c s0 : N) (l w : str) :
  combining s0 = 0%N →
  reorder_insert c (l ++ s0 :: w) = reorder_insert c l ++ s0 :: w.
Proof.
  intros Hs. induction l as [|d l IH]; simpl.
  - rewrite Hs. by rewrite (bool_decide_eq_false_2 (0 < 0)%N) by lia.
  - destruct (_ && _); [by rewrite IH|done].
Qed.

Lemma canonical_order_app_cons (s t : str) :
  canonical_order (s ++ t) = foldr reorder_insert (canonical_order t) s.
Proof. induction s as [|c s IH]; simpl; [done|by rewrite IH]. Qed.

(** Characters never move across a starter. *)
Lemma canonical_order_app_starter (s : str) (s0 : N) (t : str) :
  combining s0 = 0%N →
  canonical_order (s ++ s0 :: t) = canonical_order s ++ s0 :: canonical_order t.
Proof.
  intros Hs. induction s as [|c s IH]; simpl.
  - by apply reorder_insert_starter.
  - rewrite IH. by apply reorder_insert_before_starter.
Qed.

Lemma reorder_insert_ordered (c : N) (s : str) :
  ordered s → ordered (reorder_insert c s).
Proof.
  induction s as [|d s IH]; [done|]. intros Hord. simpl.
  destruct (bool_decide (0 < combining d)%N && bool_decide (combining d < combining c)%N)
    eqn:Hmove.
  - apply andb_true_iff in Hmove as [Hd Hdc].
    apply bool_decide_eq_true in Hd, Hdc.
    assert (Htail : ordered (reorder_insert c s)).
    { apply IH. destruct s; [done|]. by destruct Hord. }
    destruct s as [|e s]; simpl in *.
    + split; [lia|done].
    + destruct Hord as [Hde Hord].
      destruct (bool_decide (0 < combining e)%N && bool_decide (combining e < combining c)%N);
        (split; [|done]); [done|lia].
  - apply andb_false_iff in Hmove.
    rewrite !bool_decide_eq_false in Hmove.
    split; [lia|done].
Qed.

Lemma canonical_order_ordered (s : str) : ordered (canonical_order s).
Proof.
  induction s as [|c s IH]; [done|]. simpl. by apply reorder_insert_ordered.
Qed.

Lemma canonical_order_id (s : str) : ordered s → canonical_order s = s.
Proof.
  induction s as [|c s IH]; [done|]. intros Hord. simpl.
  destruct s as [|d s]; [done|]. destruct Hord as [Hcd Hord].
  rewrite (IH Hord). simpl.
  destruct (bool_decide (0 < combining d)%N && bool_decide (combining d < combining c)%N)
    eqn:Hmove; [|done].
  apply andb_true_iff in Hmove as [Hd Hdc].
  apply bool_decide_eq_true in Hd, Hdc. lia.
Qed.

Lemma canonical_order_idemp (s : str) :
  canonical_order (canonical_order s) = canonical_order s.
Proof. apply canonical_order_id, canonical_order_ordered. Qed.

Lemma reorder_insert_Permutation (c : N) (s : str) : reorder_insert c s ≡ₚ c :: s.
Proof.
  induction s as [|d s IH]; [done|]. simpl.
  destruct (_ && _); [|done]. rewrite IH. apply Permutation_swap.
Qed.

Lemma canonical_order_Permutation (s : str) : canonical_order s ≡ₚ s.
Proof.
  induction s as [|c s IH]; [done|]. simpl.
  by rewrite reorder_insert_Permutation, IH.
Qed.

(** Two characters of different non-zero classes, the lower one first or
    second, end up in the same places. *)
Lemma reorder_insert_commute (b c : N) (s : str) :
  (0 < combining b)%N → (combining b < combining c)%N →
  reorder_insert c (reorder_insert b s) = reorder_insert b (reorder_insert c s).
Proof.
  intros Hb Hbc. induction s as [|d s IH]; simpl.
  - rewrite !bool_decide_eq_true_2 by done. simpl.
    by rewrite (bool_decide_eq_false_2 (combining c < combining b)%N), andb_false_r by lia.
  - destruct (bool_decide (0 < combining d)%N) eqn:Hd; simpl.
    + apply bool_decide_eq_true in Hd.
      destruct (bool_decide (combining d < combining b)%N) eqn:Hdb; simpl.
      * apply bool_decide_eq_true in Hdb.
        rewrite (bool_decide_eq_true_2 (0 < combining d)%N) by done.
        rewrite (bool_decide_eq_true_2 (combining d < combining c)%N) by lia.
        simpl. rewrite (bool_decide_eq_true_2 (0 < combining d)%N) by done.
        rewrite (bool_decide_eq_true_2 (combining d < combining b)%N) by done.
        simpl. by rewrite IH.
      * apply bool_decide_eq_false in Hdb.
        rewrite !(bool_decide_eq_true_2 (0 < combining b)%N) by done.
        rewrite (bool_decide_eq_true_2 (combining b < combining c)%N) by done.
        simpl. rewrite (bool_decide_eq_true_2 (0 < combining d)%N) by done. simpl.
        destruct (bool_decide (combining d < combining c)%N) eqn:Hdc; simpl.
        -- rewrite (bool_decide_eq_true_2 (0 < combining d)%N) by done.
           by rewrite (bool_decide_eq_false_2 (combining d < combining b)%N) by done.
        -- by rewrite (bool_decide_eq_false_2 (combining c < combining b)%N),
                      andb_false_r by lia.
    + apply bool_decide_eq_false in Hd.
      rewrite !(bool_decide_eq_true_2 (0 < combining b)%N) by done.
      rewrite (bool_decide_eq_true_2 (combining b < combining c)%N) by done.
      simpl. rewrite (bool_decide_eq_false_2 (0 < combining d)%N) by done. simpl.
      by rewrite (bool_decide_eq_false_2 (combining c < combining b)%N),
                 andb_false_r by lia.
Qed.

(** A character may be taken from behind characters of lower non-zero
    classes and put in front of them: the canonical order is the same. *)
Lemma canonical_order_move (c : N) (pending rest : str) :
  Forall (λ b, 0 < combining b ∧ combining b < combining c)%N pending →
  canonical_order (c :: pending ++ rest) = canonical_order (pending ++ c :: rest).
Proof.
  induction 1 as [|b pending [Hb Hbc] _ IH]; [done|].
  simpl in *. rewrite <- IH. by apply reorder_insert_commute.
Qed.

(** *** Canonical composition *)

Lemma blocked_false (pending : str) (c : N) :
  blocked pending c = false →
  Forall (λ b, 0 < combining b ∧ combining b < combining c)%N pending.
Proof.
  unfold blocked. induction pending as [|b pending IH]; simpl; [by constructor|].
  intros Hb. apply orb_false_iff in Hb as [Hb Hrest].
  apply orb_false_iff in Hb as [Hb0 Hbc].
  apply bool_decide_eq_false in Hb0, Hbc.
  constructor; [lia|by apply IH].
Qed.

(** The first character of a composed run decomposes to what the starter of
    the run decomposes to, followed by what was merged into it. *)
Lemma compose_run_head (rest : str) (L : N) (pending : str) :
  ∃ L' tail t,
    compose_run L pending rest = L' :: tail ∧
    decompose_char L' = decompose_char L ++ t.
Proof.
  revert L pending. induction rest as [|c rest IH]; intros L pending; simpl.
  - exists L, pending, []. by rewrite app_nil_r.
  - destruct (if blocked pending c then None else compose_pair L c) as [P|] eqn:Hm.
    + destruct (blocked pending c); [done|].
      destruct (IH P pending) as (L' & tail & t & Hrun & Hdec).
      exists L', tail, (decompose_char c ++ t). split; [done|].
      by rewrite Hdec, (compose_pair_decomposes _ _ _ Hm), <- app_assoc.
    + case_bool_decide.
      * exists L, (pending ++ compose_run c [] rest), []. by rewrite app_nil_r.
      * apply IH.
Qed.

(** Decomposing and reordering a composed run gives the canonical order of
    what the run was composed from. *)
Lemma compose_run_decompose (rest : str) (L : N) (pending : str) :
  Forall inert pending → Forall inert rest →
  (∃ s0 t, decompose_char L = s0 :: t ∧ combining s0 = 0%N) →
  canonical_order (decompose (compose_run L pending rest))
  = canonical_order (decompose_char L ++ pending ++ rest).
Proof.
  revert L pending. induction rest as [|c rest IH]; intros L pending Hpend Hrest HL.
  - cbn [compose_run]. rewrite decompose_cons, (decompose_inert pending Hpend).
    by rewrite app_nil_r.
  - apply Forall_cons in Hrest as [Hc Hrest]. cbn [compose_run].
    destruct (if blocked pending c then None else compose_pair L c) as [P|] eqn:Hm.
    + destruct (blocked pending c) eqn:Hblocked; [done|].
      pose proof (compose_pair_decomposes _ _ _ Hm) as HP. rewrite Hc in HP.
      rewrite IH; [|done|done|]; cycle 1.
      { destruct HL as (s0 & t & HdL & Hs0). exists s0, (t ++ [c]).
        by rewrite HP, HdL. }
      rewrite HP, <- app_assoc, !(canonical_order_app_cons (decompose_char L)).
      f_equal.
      apply (canonical_order_move c pending rest).
      by apply blocked_false.
    + case_bool_decide as Hstarter.
      * destruct (compose_run_head rest c []) as (L' & tail & t & Hrun & Hdec).
        assert (Hinner : canonical_order (decompose (compose_run c [] rest))
                         = canonical_order (decompose_char c ++ [] ++ rest)).
        { apply IH; [constructor|done|]. exists c, []. by rewrite Hc. }
        rewrite Hc in Hdec, Hinner.
        rewrite Hrun, decompose_cons, Hdec in Hinner.
        cbn [app canonical_order] in Hinner.
        rewrite !reorder_insert_starter in Hinner by done.
        injection Hinner as Hinner.
        rewrite decompose_cons, decompose_app, (decompose_inert pending Hpend).
        rewrite Hrun, decompose_cons, Hdec. cbn [app].
        rewrite !app_assoc.
        rewrite !(canonical_order_app_starter _ c) by done.
        by rewrite Hinner.
      * rewrite IH; [|by apply Forall_app_2; [|constructor]|done|done].
        by rewrite <- (app_assoc pending [c] rest).
Qed.

Lemma canonical_composition_decompose (s : str) :
  Forall inert s →
  canonical_order (decompose (canonical_composition s)) = canonical_order s.
Proof.
  induction 1 as [|c s Hc Hs IH]; [done|]. cbn [canonical_composition].
  case_bool_decide as Hstarter.
  - rewrite compose_run_decompose; [by rewrite Hc|done|done|].
    exists c, []. by rewrite Hc.
  - rewrite decompose_cons, Hc. cbn [app canonical_order]. by rewrite IH.
Qed.

(** *** Normal forms *)

Lemma Forall_inert_nfd (s : str) : Forall inert (nfd s).
Proof.
  unfold nfd. rewrite canonical_order_Permutation. apply Forall_inert_decompose.
Qed.

Lemma nfd_idemp (s : str) : nfd (nfd s) = nfd s.
Proof.
  unfold nfd at 1. rewrite (decompose_inert _ (Forall_inert_nfd s)).
  apply canonical_order_idemp.
Qed.

(** The NFC form of a string is canonically equivalent to the string. *)
Lemma nfd_nfc (s : str) : nfd (nfc s) = nfd s.
Proof.
  unfold nfc, nfd at 1. rewrite (canonical_composition_decompose _ (Forall_inert_nfd s)).
  apply canonical_order_idemp.
Qed.

Lemma nfc_idemp (s : str) : nfc (nfc s) = nfc s.
Proof. unfold nfc at 1. by rewrite nfd_nfc. Qed.

Lemma nfc_nfd (s : str) : nfc (nfd s) = nfc s.
Proof. unfold nfc at 1. by rewrite nfd_idemp. Qed.

End NormalizeFacts.

(** C6. [normalize_name] is a function on all strings (it is defined by
    structural recursion, with no failure case) and, over a coherent
    character database, it is idempotent; it gives the decomposed (NFD) and
    the composed (NFC) form of a string the same key, more generally it
    gives any two canonically equivalent strings (strings with the same
    canonical decomposition) the same key, and the key is canonically
    equivalent to the string it was made from. *)
Theorem C6_normalize_name_idempotent {U : UnicodeData} :
  coherent →
  ∀ x : str,
    normalize_name (normalize_name x) = normalize_name x ∧
    normalize_name (nfd x) = normalize_name (nfc x) ∧
    nfd (normalize_name x) = nfd x ∧
    (∀ y, nfd x = nfd y → normalize_name x = normalize_name y).
Proof.
  intros HU x. unfold normalize_name. split_and!.
  - by apply nfc_idemp.
  - by rewrite nfc_nfd, nfc_idemp.
  - by apply nfd_nfc.
  - intros y Hxy. unfold nfc. by rewrite Hxy.
Qed.

Lemma sample_unicode_coherent : coherent (U := sample_unicode).
Proof.
  split.
  - intros c c'. cbn [decomposition sample_unicode]. unfold sample_decomposition.
    repeat case_bool_decide; intros Hin;
      repeat (apply elem_of_cons in Hin as [->|Hin]);
      try (by apply elem_of_nil in Hin); by vm_compute.
  - intros a b p. cbn [composition decomposition sample_unicode].
    unfold sample_composition.
    repeat (case_bool_decide; cbn [andb]); try done;
      intros [= <-]; subst; by vm_compute.
  - intros c Hj. cbn [decomposition sample_unicode]. unfold sample_decomposition.
    revert Hj. unfold_hangul.
    rewrite !orb_true_iff, !andb_true_iff, !bool_decide_eq_true. intros Hj.
    rewrite !bool_decide_eq_false_2 by lia. done.
Qed.

Lemma C6_normalize_name_idempotent_witness :
  coherent (U := sample_unicode) ∧
  normalize_name (U := sample_unicode) [0xD55C; 0xE9; 0x327]%N
    = [0xD55C; 0x229; 0x301]%N ∧
  nfd (U := sample_unicode) [0xD55C; 0xE9; 0x327]%N
    = [0x1112; 0x1161; 0x11AB; 0x65; 0x327; 0x301]%N ∧
  normalize_name (U := sample_unicode)
    (normalize_name (U := sample_unicode) [0xD55C; 0xE9; 0x327]%N)
    = normalize_name (U := sample_unicode) [0xD55C; 0xE9; 0x327]%N ∧
  normalize_name (U := sample_unicode)
    (nfd (U := sample_unicode) [0xD55C; 0xE9; 0x327]%N)
    = normalize_name (U := sample_unicode)
        (nfc (U := sample_unicode) [0xD55C; 0xE9; 0x327]%N).
Proof.
  split; [exact sample_unicode_coherent|].
  split; [by_eval|]. split; [by_eval|].
  destruct (C6_normalize_name_idempotent (U := sample_unicode)
              sample_unicode_coherent [0xD55C; 0xE9; 0x327]%N)
    as (Hidem & Hforms & _).
  by split.
Defined.

(** ** The order of strings *)

Lemma str_leb_total (a b : str) : str_leb a b = true ∨ str_leb b a = true.
Proof.
  revert b. induction a as [|x a IH]; intros [|y b]; simpl; auto.
  repeat case_bool_decide; auto; lia.
Qed.

Lemma str_leb_trans (a b c : str) :
  str_leb a b = true → str_leb b c = true → str_leb a c = true.
Proof.
  revert b c. induction a as [|x a IH]; intros [|y b] [|z c]; simpl; auto; try done.
  repeat case_bool_decide; subst; try done; try lia; eauto.
Qed.

Lemma str_leb_antisym (a b : str) :
  str_leb a b = true → str_leb b a = true → a = b.
Proof.
  revert b. induction a as [|x a IH]; intros [|y b]; simpl; try done.
  repeat case_bool_decide; subst; try done; try lia.
  intros. f_equal. auto.
Qed.

Global Instance str_le_total : Total str_le.
Proof.
  intros a b. unfold str_le.
  destruct (str_leb_total a b) as [->| ->]; [by left|by right].
Qed.

Global Instance str_le_trans : Transitive str_le.
Proof.
  intros a b c. unfold str_le. intros Hab Hbc.
  apply Is_true_true in Hab, Hbc. apply Is_true_true. eauto using str_leb_trans.
Qed.

Global Instance str_le_antisym : AntiSymm (=) str_le.
Proof.
  intros a b. unfold str_le. intros Hab Hba.
  apply Is_true_true in Hab, Hba. by apply str_leb_antisym.
Qed.

(** Sorting a list without repetition gives a strictly ascending list. *)
Lemma merge_sort_strict {A} (R : relation A)
    `{!RelDecision R, !Total R, !Transitive R} (l : list A) :
  NoDup l → StronglySorted (λ a b, R a b ∧ a ≠ b) (merge_sort R l).
Proof.
  intros Hnd.
  assert (Hs : StronglySorted R (merge_sort R l))
    by (apply StronglySorted_merge_sort; apply _).
  assert (Hnd' : NoDup (merge_sort R l))
    by (by rewrite merge_sort_Permutation).
  clear Hnd. induction Hs as [|x l' Hs IH Hx]; [constructor|].
  apply NoDup_cons in Hnd' as [Hx' Hnd'].
  constructor; [by apply IH|].
  apply Forall_forall. intros y Hy. split.
  - by eapply Forall_forall in Hx.
  - intros ->. done.
Qed.

(** ** The common schools *)

Lemma elem_of_common_schools env_data growth_data (s : str) :
  s ∈ common_schools env_data growth_data ↔
  s ∈ dom env_data ∧ s ∈ dom growth_data.
Proof.
  unfold common_schools. rewrite merge_sort_Permutation.
  rewrite elem_of_elements. set_solver.
Qed.

Lemma common_schools_lookup env_data growth_data (s : str) :
  s ∈ common_schools env_data growth_data →
  ∃ recs rows, env_data !! s = Some recs ∧ growth_data !! s = Some rows.
Proof.
  rewrite elem_of_common_schools. intros [He Hg].
  apply elem_of_dom in He as [recs ?], Hg as [rows ?]. eauto.
Qed.

Lemma common_schools_sorted env_data growth_data :
  StronglySorted (λ a b, str_le a b ∧ a ≠ b) (common_schools env_data growth_data).
Proof. apply (merge_sort_strict str_le), NoDup_elements. Qed.

(** Whatever order the set intersection is iterated in, [sorted] returns the
    same list. *)
Lemma common_schools_any_order env_data growth_data (l : list str) :
  l ≡ₚ elements (dom env_data ∩ dom growth_data) →
  merge_sort str_le l = common_schools env_data growth_data.
Proof.
  intros Hl. unfold common_schools.
  apply (Sorted_unique str_le).
  - apply Sorted_merge_sort; apply _.
  - apply Sorted_merge_sort; apply _.
  - by rewrite !merge_sort_Permutation.
Qed.

(** ** The aggregated tables *)

Lemma summary_schools env_data growth_data :
  summary_school <$> summary env_data growth_data
  = common_schools env_data growth_data.
Proof. unfold summary. rewrite <- list_fmap_compose. apply list_fmap_id. Qed.

Lemma avg_env_schools env_data growth_data :
  avg_school <$> avg_env env_data growth_data
  = common_schools env_data growth_data.
Proof. unfold avg_env. rewrite <- list_fmap_compose. apply list_fmap_id. Qed.

Lemma ec_map_dom env_data growth_data :
  dom (ec_map env_data growth_data)
  = list_to_set (common_schools env_data growth_data).
Proof.
  unfold ec_map. rewrite dom_list_to_map_L, <- list_fmap_compose.
  by rewrite list_fmap_id.
Qed.

Lemma ec_map_lookup env_data growth_data (s : str) :
  ec_map env_data growth_data !! s =
  if decide (s ∈ common_schools env_data growth_data)
  then Some (school_ec_mean env_data s) else None.
Proof.
  unfold ec_map.
  induction (common_schools env_data growth_data) as [|k l IH].
  - rewrite fmap_nil, list_to_map_nil, lookup_empty.
    destruct (decide (s ∈ [])) as [Hin|]; [by apply elem_of_nil in Hin|done].
  - rewrite fmap_cons, list_to_map_cons, lookup_insert, IH.
    destruct (decide (k = s)) as [->|Hk].
    + by rewrite decide_True by apply list_elem_of_here.
    + destruct (decide (s ∈ l)) as [Hin|Hin].
      * by rewrite decide_True by by apply list_elem_of_further.
      * rewrite decide_False; [done|].
        rewrite elem_of_cons. naive_solver.
Qed.

(** The rows of [growth_all] are the growth rows of the common schools, each
    with the unrounded EC mean of its school. *)
Lemma elem_of_growth_all env_data growth_data (r : JoinedRow) :
  tagged growth_data →
  r ∈ growth_all env_data growth_data →
  ∃ rows, school (growth r) ∈ common_schools env_data growth_data ∧
          growth_data !! school (growth r) = Some rows ∧
          growth r ∈ rows ∧
          EC r = school_ec_mean env_data (school (growth r)).
Proof.
  intros Htag. unfold growth_all.
  rewrite list_elem_of_fmap. intros (g & -> & Hg).
  apply list_elem_of_bind in Hg as (s & Hg & Hs).
  destruct (common_schools_lookup _ _ _ Hs) as (recs & rows & _ & Hrows).
  unfold growth_frame in Hg. rewrite (lookup_total_correct _ _ _ Hrows) in Hg.
  pose proof (Htag _ _ Hrows) as Hall.
  rewrite Forall_forall in Hall. pose proof (Hall _ Hg) as Hschool.
  simpl. rewrite Hschool. exists rows. split_and!; [done..|].
  rewrite ec_map_lookup. by rewrite decide_True.
Qed.

(** C2. The working school list is the intersection of the two key sets in
    strictly ascending string order: it has exactly the common keys, each
    once; the school columns of the summary table and of the table of
    environment averages are this list, as are the keys of [ec_map], and the
    joined growth table has rows of these schools only; and the list is the
    same however the intersection is enumerated, so computing it again from
    unchanged inputs gives it again. *)
Theorem C2_common_schools_sorted_intersection
    (env_data : gmap str (list EnvRecord))
    (growth_data : gmap str (list GrowthRecord)) :
  let common := common_schools env_data growth_data in
  StronglySorted (λ a b, str_le a b ∧ a ≠ b) common ∧
  (∀ s, s ∈ common ↔ s ∈ dom env_data ∩ dom growth_data) ∧
  summary_school <$> summary env_data growth_data = common ∧
  avg_school <$> avg_env env_data growth_data = common ∧
  dom (ec_map env_data growth_data) = list_to_set common ∧
  (tagged growth_data →
   ∀ r, r ∈ growth_all env_data growth_data → school (growth r) ∈ common) ∧
  (∀ l, l ≡ₚ elements (dom env_data ∩ dom growth_data) →
        merge_sort str_le l = common).
Proof.
  intros common. split_and!.
  - apply common_schools_sorted.
  - intros s. unfold common. rewrite elem_of_common_schools.
    by rewrite elem_of_intersection.
  - apply summary_schools.
  - apply avg_env_schools.
  - apply ec_map_dom.
  - intros Htag r Hr.
    by destruct (elem_of_growth_all _ _ _ Htag Hr) as (rows & Hs & _).
  - apply common_schools_any_order.
Qed.

Lemma common_schools_nil env_data growth_data :
  common_schools env_data growth_data = [] ↔
  dom env_data ∩ dom growth_data = ∅.
Proof.
  split.
  - intros Hnil. apply set_eq. intros s.
    pose proof (elem_of_common_schools env_data growth_data s) as Hs.
    rewrite Hnil, elem_of_nil in Hs. rewrite elem_of_intersection.
    rewrite <- Hs. by rewrite elem_of_empty.
  - intros Hempty. unfold common_schools. by rewrite Hempty, elements_empty.
Qed.

(** ** The script monad *)

Lemma bind_value {A B} (shown : list event) (a : A) (f : A → script B) :
  ((shown, inr a) : script A) ≫= f = (shown ++ (f a).1, (f a).2).
Proof. unfold mbind, script_bind. by destruct (f a). Qed.

Lemma try_value {A B} (a : A) (f : A → script B) :
  try_ (inr a) ≫= f = f a.
Proof. unfold try_, mret, script_ret. rewrite bind_value. by destruct (f a). Qed.

Lemma bind_assoc {A B C} (m : script A) (f : A → script B) (g : B → script C) :
  (m ≫= f) ≫= g = m ≫= (λ a, f a ≫= g).
Proof.
  destruct m as [shown [h|a]]; [done|].
  unfold mbind, script_bind.
  destruct (f a) as [shown' [h|b]]; [done|].
  destruct (g b) as [shown'' r]. by rewrite app_assoc.
Qed.

Lemma show_bind {B} (e : event) (k : script B) :
  (show e;; k) = (e :: k.1, k.2).
Proof. unfold show. rewrite bind_value. by destruct k. Qed.

(** ** Reconciliation *)

Section ScriptFacts.
Context {U : UnicodeData} {P : DateParser}.

Lemma reconcile_no_overlap env_data growth_data :
  dom env_data ∩ dom growth_data = ∅ →
  reconcile env_data growth_data = ([st_error no_common_school], inl stopped).
Proof.
  intros Hempty. apply common_schools_nil in Hempty.
  unfold reconcile. by rewrite Hempty.
Qed.

Lemma reconcile_overlap env_data growth_data :
  dom env_data ∩ dom growth_data ≠ ∅ →
  reconcile env_data growth_data =
    ((if bool_decide (missing_env env_data growth_data ≠ ∅)
      then [st_warning (missing_env env_data growth_data)] else []),
     inr (common_schools env_data growth_data)).
Proof.
  intros Hne. rewrite <- common_schools_nil in Hne.
  unfold reconcile.
  destruct (common_schools env_data growth_data) as [|s l] eqn:Hc; [done|].
  simpl. by case_bool_decide.
Qed.

(** The script once both loaders have returned. *)
Lemma main_loaded files selected env_data growth_data :
  load_environment_data files = inr env_data →
  load_growth_data files = inr growth_data →
  main (Some files) selected =
    (when (bool_decide (env_data = ∅) || bool_decide (growth_data = ∅))
          (show (st_error no_data_files);; st_stop);;
     common ← reconcile env_data growth_data;
     show (st_selectbox (all_label :: common));;
     show st_title;;
     tab1 env_data growth_data;;
     tab2 env_data growth_data selected;;
     tab3 env_data growth_data).
Proof.
  intros He Hg. unfold main. rewrite He, Hg. by rewrite !try_value.
Qed.

End ScriptFacts.

(** C4. When the environment and growth key sets have no school in common,
    reconciliation shows the no-common-school error and stops; a run whose
    loaders returned such dictionaries stops after one error message and
    shows nothing else (no table, metric or chart), and that message is the
    no-common-school one when both dictionaries are non-empty. *)
Theorem C4_no_overlap_halts {U : UnicodeData} {P : DateParser}
    (files : list File) (selected : str)
    (env_data : gmap str (list EnvRecord))
    (growth_data : gmap str (list GrowthRecord)) :
  load_environment_data files = inr env_data →
  load_growth_data files = inr growth_data →
  dom env_data ∩ dom growth_data = ∅ →
  reconcile env_data growth_data = ([st_error no_common_school], inl stopped) ∧
  (env_data ≠ ∅ → growth_data ≠ ∅ →
   main (Some files) selected = ([st_error no_common_school], inl stopped)) ∧
  (∃ m, main (Some files) selected = ([st_error m], inl stopped)) ∧
  Forall (λ e, is_dashboard e = false) (main (Some files) selected).1.
Proof.
  intros He Hg Hempty.
  pose proof (reconcile_no_overlap _ _ Hempty) as Hr.
  rewrite (main_loaded _ _ _ _ He Hg), Hr.
  split_and!; [done|..].
  - intros Hne1 Hne2.
    by rewrite !bool_decide_eq_false_2 by done.
  - destruct (bool_decide (env_data = ∅) || bool_decide (growth_data = ∅));
      [by exists no_data_files|by exists no_common_school].
  - destruct (bool_decide (env_data = ∅) || bool_decide (growth_data = ∅));
      by repeat constructor.
Qed.

Lemma C4_no_overlap_halts_witness :
  load_environment_data (U := sample_unicode) (P := sample_parser)
    [csv_A; xlsx_C] = inr env_A ∧
  load_growth_data (U := sample_unicode) [csv_A; xlsx_C] = inr growth_C ∧
  dom env_A ∩ dom growth_C = ∅ ∧
  main (U := sample_unicode) (P := sample_parser)
    (Some [csv_A; xlsx_C]) all_label
  = ([st_error no_common_school], inl stopped).
Proof.
  split; [by_eval|]. split; [by_eval|]. split; [by_eval|].
  apply (C4_no_overlap_halts (U := sample_unicode) (P := sample_parser)
           [csv_A; xlsx_C] all_label env_A growth_C); by_eval.
Defined.

(** ** The loaders *)

Section LoaderFacts.
Context {U : UnicodeData} {P : DateParser}.

Lemma to_datetime_fails rows row :
  row ∈ rows → parse_datetime row.1 = None → to_datetime rows = inl ValueError.
Proof.
  intros Hin Hbad. induction rows as [|[t r] rows IH]; [by apply elem_of_nil in Hin|].
  apply elem_of_cons in Hin as [->|Hin]; simpl in *.
  - by rewrite Hbad.
  - destruct (parse_datetime t); [|done]. by rewrite IH.
Qed.

Lemma to_datetime_parsed rows df :
  to_datetime rows = inr df → parsed_rows rows df.
Proof.
  revert df. induction rows as [|[t r] rows IH]; intros df; simpl.
  - intros [= <-]. constructor.
  - destruct (parse_datetime t) as [ts|] eqn:Ht; [|done].
    destruct (to_datetime rows) as [e|recs]; [done|].
    intros [= <-]. constructor; [done|]. by apply IH.
Qed.

Lemma read_environment_bad f :
  bad_time f → ∃ e, read_environment f = inl e.
Proof.
  unfold bad_time, read_environment.
  destruct (content f) as [[rows|rows]| |]; try done; [by eexists|].
  intros (row & Hin & Hbad). eexists. by eapply to_datetime_fails.
Qed.

Lemma read_environment_parsed f df :
  read_environment f = inr df →
  ∃ rows, content f = csv_text (csv_with_time rows) ∧ parsed_rows rows df.
Proof.
  unfold read_environment.
  destruct (content f) as [[rows|rows]| |]; try done.
  intros Hdf. exists rows. split; [done|]. by apply to_datetime_parsed.
Qed.

Lemma load_environment_loop_app pre post acc :
  load_environment_loop (pre ++ post) acc =
  match load_environment_loop pre acc with
  | inl e => inl e
  | inr acc' => load_environment_loop post acc'
  end.
Proof.
  revert acc. induction pre as [|f pre IH]; intros acc; simpl; [done|].
  destruct (decide _); [|done].
  by destruct (read_environment f).
Qed.

(** One unreadable CSV file makes the whole loop fail. *)
Lemma load_environment_loop_fails files acc f e0 :
  f ∈ files → is_csv f → read_environment f = inl e0 →
  ∃ e, load_environment_loop files acc = inl e.
Proof.
  intros Hin Hcsv Hread. revert acc.
  induction files as [|g files IH]; intros acc; [by apply elem_of_nil in Hin|].
  apply elem_of_cons in Hin as [<-|Hin]; simpl.
  - rewrite decide_True by done. rewrite Hread. by eexists.
  - destruct (decide _); [|by apply IH].
    destruct (read_environment g); [by eexists|by apply IH].
Qed.

(** Entries that do not write the key [k] leave its frame alone. *)
Lemma load_environment_loop_other files acc env_data k :
  load_environment_loop files acc = inr env_data →
  (∀ g, g ∈ files → is_csv g → env_school g ≠ k) →
  env_data !! k = acc !! k.
Proof.
  revert acc. induction files as [|g files IH]; intros acc; simpl.
  - by intros [= <-].
  - intros Hload Hother.
    assert (Hrest : ∀ g', g' ∈ files → is_csv g' → env_school g' ≠ k)
      by (intros g' ?; apply Hother; by apply list_elem_of_further).
    destruct (decide _) as [Hcsv|]; [|by apply IH].
    destruct (read_environment g) as [|df]; [done|].
    rewrite (IH _ Hload Hrest). apply lookup_insert_ne.
    apply Hother; [apply list_elem_of_here|done].
Qed.

(** Every frame of the result is in the initial dictionary or is what one
    CSV file of the directory reads as. *)
Lemma load_environment_loop_origin files acc env_data k df :
  load_environment_loop files acc = inr env_data →
  env_data !! k = Some df →
  acc !! k = Some df ∨
  ∃ g, g ∈ files ∧ is_csv g ∧ env_school g = k ∧ read_environment g = inr df.
Proof.
  revert acc. induction files as [|g files IH]; intros acc; simpl.
  - intros [= <-]. by left.
  - intros Hload Hk. destruct (decide _) as [Hcsv|].
    + destruct (read_environment g) as [|df'] eqn:Hread; [done|].
      destruct (IH _ Hload Hk) as [Hacc|(g' & ? & ? & ? & ?)].
      * rewrite lookup_insert in Hacc. case_decide as Hkey.
        -- injection Hacc as <-. right. exists g.
           split_and!; [apply list_elem_of_here|done..].
        -- by left.
      * right. exists g'. split_and!; [by apply list_elem_of_further|done..].
    + destruct (IH _ Hload Hk) as [?|(g' & ? & ? & ? & ?)]; [by left|].
      right. exists g'. split_and!; [by apply list_elem_of_further|done..].
Qed.

Lemma find_xlsx_none files :
  Forall (λ f, ¬ is_xlsx f) files → find_xlsx files = None.
Proof.
  induction 1 as [|f files Hf _ IH]; simpl; [done|].
  by rewrite decide_False.
Qed.

Lemma load_sheets_tagged sheets growth_data :
  tagged growth_data → tagged (load_sheets sheets growth_data).
Proof.
  revert growth_data.
  induction sheets as [|[sheet rows] sheets IH]; intros growth_data Ht; simpl; [done|].
  apply IH. intros s rows'. rewrite lookup_insert. case_decide as Hs.
  - intros [= <-]. subst s. by apply Forall_fmap, Forall_true.
  - apply Ht.
Qed.

Lemma load_growth_data_tagged files growth_data :
  load_growth_data files = inr growth_data → tagged growth_data.
Proof.
  unfold load_growth_data. destruct (find_xlsx files) as [f|].
  - destruct (content f); try done. intros [= <-].
    apply load_sheets_tagged. intros s rows. by rewrite lookup_empty.
  - intros [= <-]. intros s rows. by rewrite lookup_empty.
Qed.

End LoaderFacts.

(** C7 (as the code has it). When several CSV files of the directory resolve
    to the same school key, the frame stored under that key is the one read
    from the last of them in enumeration order: it has that file's rows, one
    record per row and in order, and nothing of the earlier files. *)
Theorem C7_later_file_replaces {U : UnicodeData} {P : DateParser}
    (pre post : list File) (f : File)
    (env_data : gmap str (list EnvRecord)) :
  load_environment_data (pre ++ f :: post) = inr env_data →
  is_csv f →
  (∀ g, g ∈ post → is_csv g → env_school g ≠ env_school f) →
  ∃ rows df,
    content f = csv_text (csv_with_time rows) ∧
    read_environment f = inr df ∧
    parsed_rows rows df ∧
    env_data !! env_school f = Some df.
Proof.
  unfold load_environment_data. rewrite load_environment_loop_app.
  destruct (load_environment_loop pre ∅) as [|acc]; [done|]. simpl.
  intros Hload Hcsv Hlast. rewrite decide_True in Hload by done.
  destruct (read_environment f) as [|df] eqn:Hread; [done|].
  destruct (read_environment_parsed _ _ Hread) as (rows & Hrows & Hparsed).
  exists rows, df. split_and!; [done..|].
  rewrite (load_environment_loop_other _ _ _ _ Hload Hlast).
  apply lookup_insert_eq.
Qed.

Lemma C7_later_file_replaces_witness :
  load_environment_data (U := sample_unicode) (P := sample_parser)
    ([csv_A] ++ csv_A2 :: [xlsx_AB]) = inr {[ py "A" := [sample_record 400 3] ]} ∧
  is_csv csv_A2 ∧
  ∃ rows df,
    content csv_A2 = csv_text (csv_with_time rows) ∧
    read_environment (P := sample_parser) csv_A2 = inr df ∧
    parsed_rows (P := sample_parser) rows df ∧
    ({[ py "A" := [sample_record 400 3] ]} : gmap str (list EnvRecord))
      !! env_school (U := sample_unicode) csv_A2 = Some df.
Proof.
  split; [by_eval|]. split; [by_eval|].
  apply (C7_later_file_replaces (U := sample_unicode) (P := sample_parser)
           [csv_A] [xlsx_AB] csv_A2); [by_eval|by_eval|].
  intros g Hg Hcsv. apply list_elem_of_singleton in Hg as ->.
  exfalso. revert Hcsv. by_eval.
Defined.

(** C7, the claim as stated, fails: with two files for school A, the frame
    under A is the second file's alone, not the first file's records followed
    by the second's. *)
Lemma C7_append_counterexample :
  env_school (U := sample_unicode) csv_A = env_school (U := sample_unicode) csv_A2 ∧
  read_environment (P := sample_parser) csv_A
    = inr [sample_record 100 1; sample_record 200 1; sample_record 300 2] ∧
  read_environment (P := sample_parser) csv_A2 = inr [sample_record 400 3] ∧
  ∃ env_data,
    load_environment_data (U := sample_unicode) (P := sample_parser)
      [csv_A; csv_A2] = inr env_data ∧
    env_data !! py "A" = Some [sample_record 400 3] ∧
    env_data !! py "A" ≠
      Some ([sample_record 100 1; sample_record 200 1; sample_record 300 2]
            ++ [sample_record 400 3]).
Proof.
  split; [by_eval|]. split; [by_eval|]. split; [by_eval|].
  exists {[ py "A" := [sample_record 400 3] ]}.
  split; [by_eval|]. split; by_eval.
Qed.

(** C8. In a directory with no [.xlsx] entry the growth loader returns the
    empty dictionary and raises nothing; it is the script, its caller, that
    then shows the no-data error and stops. *)
Theorem C8_no_workbook_empty_mapping {U : UnicodeData} {P : DateParser}
    (files : list File) :
  Forall (λ f, ¬ is_xlsx f) files →
  load_growth_data files = inr ∅ ∧
  ∀ selected env_data,
    load_environment_data files = inr env_data →
    main (Some files) selected = ([st_error no_data_files], inl stopped).
Proof.
  intros Hno.
  assert (Hg : load_growth_data files = inr ∅).
  { unfold load_growth_data. by rewrite find_xlsx_none. }
  split; [done|]. intros selected env_data He.
  rewrite (main_loaded _ _ _ _ He Hg).
  rewrite (bool_decide_eq_true_2 (∅ = ∅)) by done.
  by rewrite orb_true_r.
Qed.

Lemma C8_no_workbook_empty_mapping_witness :
  Forall (λ f, ¬ is_xlsx f) [csv_A; csv_B] ∧
  load_growth_data (U := sample_unicode) [csv_A; csv_B] = inr ∅ ∧
  main (U := sample_unicode) (P := sample_parser) (Some [csv_A; csv_B]) all_label
    = ([st_error no_data_files], inl stopped).
Proof.
  assert (Hno : Forall (λ f, ¬ is_xlsx f) [csv_A; csv_B]).
  { repeat constructor; by_eval. }
  destruct (C8_no_workbook_empty_mapping (U := sample_unicode) (P := sample_parser)
              [csv_A; csv_B] Hno) as [Hg Hmain].
  split; [done|]. split; [done|].
  apply (Hmain all_label env_AB). by_eval.
Defined.

(** C9. A CSV file of the directory whose [time] column is missing, or holds
    a cell that does not parse, makes the environment loader raise: the load
    returns no dictionary at all and the script ends on that exception before
    it shows anything. And when the load does succeed, every frame of the
    result is one file's rows, one record per row and in order, each with
    its [time] cell parsed: no row was dropped or patched. *)
Theorem C9_bad_time_fails_load {U : UnicodeData} {P : DateParser}
    (files : list File) :
  (∀ f selected, f ∈ files → is_csv f → bad_time f →
     ∃ e, load_environment_data files = inl e ∧
          main (Some files) selected = ([], inl (raised e))) ∧
  (∀ env_data s df,
     load_environment_data files = inr env_data →
     env_data !! s = Some df →
     ∃ f rows, f ∈ files ∧ is_csv f ∧ env_school f = s ∧
               content f = csv_text (csv_with_time rows) ∧
               parsed_rows rows df).
Proof.
  split.
  - intros f selected Hin Hcsv Hbad.
    destruct (read_environment_bad f Hbad) as [e0 Hread].
    destruct (load_environment_loop_fails files ∅ f e0 Hin Hcsv Hread) as [e He].
    exists e. split; [done|].
    unfold main. fold (load_environment_data files) in He. by rewrite He.
  - intros env_data s df Hload Hs.
    destruct (load_environment_loop_origin _ _ _ _ _ Hload Hs)
      as [Hacc|(f & Hin & Hcsv & Hkey & Hread)].
    { by rewrite lookup_empty in Hacc. }
    destruct (read_environment_parsed _ _ Hread) as (rows & Hrows & Hparsed).
    by exists f, rows.
Qed.

Lemma C9_bad_time_fails_load_witness :
  csv_bad ∈ [csv_A; csv_bad; xlsx_AB] ∧
  is_csv csv_bad ∧
  bad_time (P := sample_parser) csv_bad ∧
  ∃ e, load_environment_data (U := sample_unicode) (P := sample_parser)
         [csv_A; csv_bad; xlsx_AB] = inl e ∧
       main (U := sample_unicode) (P := sample_parser)
         (Some [csv_A; csv_bad; xlsx_AB]) all_label = ([], inl (raised e)).
Proof.
  assert (Hin : csv_bad ∈ [csv_A; csv_bad; xlsx_AB]) by by_eval.
  assert (Hcsv : is_csv csv_bad) by by_eval.
  assert (Hbad : bad_time (P := sample_parser) csv_bad).
  { exists (py "noon", sample_reading 2). split; by_eval. }
  split_and!; [done..|].
  exact (proj1 (C9_bad_time_fails_load (U := sample_unicode) (P := sample_parser)
                  [csv_A; csv_bad; xlsx_AB]) csv_bad all_label Hin Hcsv Hbad).
Defined.

(** C5 (as the code has it). When the two key sets have a school in common,
    reconciliation does not halt: the growth schools without environment
    data are shown in one warning when there are any (no warning when there
    is none), the common schools are returned and the script goes on to the
    dashboard. Such a school is in none of the aggregations: not in the
    common schools, in the summary table, in the table of environment
    averages, in [ec_map], or in the joined growth table. *)
Theorem C5_missing_env_warning {U : UnicodeData} {P : DateParser}
    (files : list File) (selected : str)
    (env_data : gmap str (list EnvRecord))
    (growth_data : gmap str (list GrowthRecord)) :
  load_environment_data files = inr env_data →
  load_growth_data files = inr growth_data →
  dom env_data ∩ dom growth_data ≠ ∅ →
  let missing := missing_env env_data growth_data in
  let common := common_schools env_data growth_data in
  let warning := if bool_decide (missing ≠ ∅) then [st_warning missing] else [] in
  reconcile env_data growth_data = (warning, inr common) ∧
  (∃ shown h,
     main (Some files) selected =
       (warning ++ st_selectbox (all_label :: common) :: st_title
          :: st_dataframe_summary (summary env_data growth_data) :: shown, h)) ∧
  (∀ s, s ∈ missing ↔ s ∈ dom growth_data ∧ s ∉ dom env_data) ∧
  (∀ s, s ∈ missing →
     (s ∉ common) ∧
     (s ∉ summary_school <$> summary env_data growth_data) ∧
     (s ∉ avg_school <$> avg_env env_data growth_data) ∧
     (s ∉ dom (ec_map env_data growth_data)) ∧
     (s ∉ (school ∘ growth) <$> growth_all env_data growth_data)).
Proof.
  intros He Hg Hne missing common warning.
  pose proof (elem_of_common_schools env_data growth_data) as Hcommon.
  pose proof (summary_schools env_data growth_data) as Hsum.
  pose proof (avg_env_schools env_data growth_data) as Havg.
  pose proof (ec_map_dom env_data growth_data) as Hdom.
  pose proof (reconcile_overlap env_data growth_data Hne) as Hr.
  split_and!; [done|..].
  - rewrite (main_loaded _ _ _ _ He Hg).
    rewrite (bool_decide_eq_false_2 (env_data = ∅)); cycle 1.
    { intros ->. apply Hne. rewrite dom_empty_L. apply (left_absorb_L _ _). }
    rewrite (bool_decide_eq_false_2 (growth_data = ∅)); cycle 1.
    { intros ->. apply Hne. rewrite dom_empty_L. apply (right_absorb_L _ _). }
    rewrite Hr. fold missing common warning.
    unfold when, orb, mret, script_ret. rewrite !bind_value. cbv beta.
    unfold tab1. rewrite bind_assoc, !show_bind. cbn [fst snd app]. eauto.
  - intros s. unfold missing, missing_env. set_solver.
  - intros s Hs.
    assert (Hnot : s ∉ common).
    { unfold common. rewrite Hcommon.
      unfold missing, missing_env in Hs. set_solver. }
    rewrite Hsum, Havg, Hdom. split_and!; [done|done|done|set_solver|].
    rewrite list_elem_of_fmap. intros (r & -> & Hr').
    apply elem_of_growth_all in Hr' as (rows & ? & _);
      [done|by eapply load_growth_data_tagged].
Qed.

Lemma C5_missing_env_warning_witness :
  load_environment_data (U := sample_unicode) (P := sample_parser)
    [csv_A; xlsx_AC] = inr env_A ∧
  load_growth_data (U := sample_unicode) [csv_A; xlsx_AC] = inr growth_AC ∧
  dom env_A ∩ dom growth_AC ≠ ∅ ∧
  missing_env env_A growth_AC = {[ py "C" ]} ∧
  reconcile env_A growth_AC = ([st_warning {[ py "C" ]}], inr [py "A"]) ∧
  (py "C" ∉ (school ∘ growth) <$> growth_all env_A growth_AC).
Proof.
  assert (He : load_environment_data (U := sample_unicode) (P := sample_parser)
                 [csv_A; xlsx_AC] = inr env_A) by by_eval.
  assert (Hg : load_growth_data (U := sample_unicode) [csv_A; xlsx_AC]
               = inr growth_AC) by by_eval.
  assert (Hne : dom env_A ∩ dom growth_AC ≠ ∅) by by_eval.
  assert (Hm : missing_env env_A growth_AC = {[ py "C" ]}) by by_eval.
  destruct (C5_missing_env_warning (U := sample_unicode) (P := sample_parser)
              [csv_A; xlsx_AC] all_label env_A growth_AC He Hg Hne)
    as (Hr & _ & _ & Hex).
  split_and!; [done..| |].
  - rewrite Hr, Hm. f_equal; by_eval.
  - apply Hex. rewrite Hm. by apply elem_of_singleton.
Defined.

(** C5, the claim as stated, fails: here the growth data has school C, the
    environment data has school A only, so C is a growth school without
    environment data; the run shows no warning about it and halts on the
    no-common-school error. *)
Lemma C5_no_warning_counterexample :
  load_environment_data (U := sample_unicode) (P := sample_parser)
    [csv_A; xlsx_C] = inr env_A ∧
  load_growth_data (U := sample_unicode) [csv_A; xlsx_C] = inr growth_C ∧
  missing_env env_A growth_C = {[ py "C" ]} ∧
  reconcile env_A growth_C = ([st_error no_common_school], inl stopped) ∧
  main (U := sample_unicode) (P := sample_parser) (Some [csv_A; xlsx_C]) all_label
    = ([st_error no_common_school], inl stopped) ∧
  (st_warning {[ py "C" ]} ∉
     (main (U := sample_unicode) (P := sample_parser)
        (Some [csv_A; xlsx_C]) all_label).1).
Proof. split_and!; by_eval. Qed.

(** ** Grouping and [idxmax] *)

Lemma elem_of_group_keys (cols : list (float * float)) (k : Qc) :
  k ∈ group_keys cols ↔ ∃ v, (Some k, v) ∈ cols.
Proof.
  unfold group_keys. rewrite merge_sort_Permutation, elem_of_remove_dups.
  rewrite list_elem_of_omap. split.
  - intros ([k' v] & Hin & Hk). simpl in Hk. subst k'. by exists v.
  - intros [v Hin]. by exists (Some k, v).
Qed.

Lemma StronglySorted_weaken {A} (R1 R2 : relation A) (l : list A) :
  (∀ a b, R1 a b → R2 a b) → StronglySorted R1 l → StronglySorted R2 l.
Proof.
  intros Himpl. induction 1 as [|x l Hs IH Hx]; constructor; [done|].
  eapply Forall_impl; [done|]. intros y. apply Himpl.
Qed.

Lemma group_keys_ascending (cols : list (float * float)) :
  StronglySorted Qclt (group_keys cols).
Proof.
  unfold group_keys.
  eapply StronglySorted_weaken;
    [|apply (merge_sort_strict Qcle), NoDup_remove_dups].
  intros a b [Hle Hne]. by apply Qcle_lt_or_eq in Hle as [?|?].
Qed.

Lemma groupby_mean_keys (cols : list (float * float)) :
  (groupby_mean cols).*1 = group_keys cols.
Proof.
  unfold groupby_mean. rewrite <- list_fmap_compose. apply list_fmap_id.
Qed.

Lemma elem_of_groupby_mean (cols : list (float * float)) (k : Qc) (m : float) :
  (k, m) ∈ groupby_mean cols ↔
  k ∈ group_keys cols ∧ m = mean (group_values k cols).
Proof.
  unfold groupby_mean. rewrite list_elem_of_fmap. split.
  - intros (k' & [= -> ->] & Hin). done.
  - intros [Hin ->]. by exists k.
Qed.

(** A column with a cell that is not NaN has a mean. *)
Lemma mean_is_Some (col : list float) (v : Qc) :
  Some v ∈ col → is_Some (mean col).
Proof.
  intros Hin. unfold mean.
  assert (Hv : v ∈ omap id col) by (apply list_elem_of_omap; by exists (Some v)).
  destruct (omap id col); [by apply elem_of_nil in Hv|by eexists].
Qed.

(** What the loop of [idxmax] returns: nothing when it started with nothing
    and every value is NaN; otherwise the best so far when no value exceeds
    it, or else the first entry whose value is greater than the best so far
    and than every value before it, and at least every value after it. *)
Lemma idxmax_loop_spec (s : list (Qc * float)) (best : option (Qc * Qc)) :
  match idxmax_loop best s with
  | None => best = None ∧ ∀ k v, (k, Some v) ∉ s
  | Some (k, v) =>
      (best = Some (k, v) ∧ ∀ k' v', (k', Some v') ∈ s → (v' ≤ v)%Qc) ∨
      (∃ pre post,
         s = pre ++ (k, Some v) :: post ∧
         (∀ b, best = Some b → (b.2 < v)%Qc) ∧
         (∀ k' v', (k', Some v') ∈ pre → (v' < v)%Qc) ∧
         (∀ k' v', (k', Some v') ∈ post → (v' ≤ v)%Qc))
  end.
Proof.
  revert best. induction s as [|[k [v|]] s IH]; intros best; simpl.
  - destruct best as [[k v]|].
    + left. split; [done|]. intros k' v' Hin. by apply elem_of_nil in Hin.
    + split; [done|]. intros k v. apply not_elem_of_nil.
  - destruct best as [[kb b]|].
    + destruct (decide (b < v)%Qc) as [Hlt|Hge].
      * specialize (IH (Some (k, v))).
        destruct (idxmax_loop (Some (k, v)) s) as [[k1 v1]|]; [|by destruct IH].
        right. destruct IH as [[[= <- <-] Hall]|(pre & post & -> & Hb & Hpre & Hpost)].
        -- exists [], s. split_and!; [done| |..].
           ++ by intros ? [= <-].
           ++ intros k' v' Hin. by apply elem_of_nil in Hin.
           ++ done.
        -- exists ((k, Some v) :: pre), post. split_and!; [done| |..].
           ++ intros ? [= <-]. simpl.
              eapply Qclt_trans; [done|]. by apply (Hb (k, v)).
           ++ intros k' v' [[= -> ->]|Hin]%elem_of_cons; [|by eapply Hpre].
              by apply (Hb (k, v)).
           ++ done.
      * apply Qcnot_lt_le in Hge.
        specialize (IH (Some (kb, b))).
        destruct (idxmax_loop (Some (kb, b)) s) as [[k1 v1]|]; [|by destruct IH].
        destruct IH as [[[= <- <-] Hall]|(pre & post & -> & Hb & Hpre & Hpost)].
        -- left. split; [done|].
           intros k' v' [[= -> ->]|Hin]%elem_of_cons; [done|by eapply Hall].
        -- right. exists ((k, Some v) :: pre), post. split_and!; [done|done| |done].
           intros k' v' [[= -> ->]|Hin]%elem_of_cons; [|by eapply Hpre].
           eapply Qcle_lt_trans; [done|]. by apply (Hb (kb, b)).
    + specialize (IH (Some (k, v))).
      destruct (idxmax_loop (Some (k, v)) s) as [[k1 v1]|]; [|by destruct IH].
      right. destruct IH as [[[= <- <-] Hall]|(pre & post & -> & Hb & Hpre & Hpost)].
      * exists [], s. split_and!; [done|done| |done].
        intros k' v' Hin. by apply elem_of_nil in Hin.
      * exists ((k, Some v) :: pre), post. split_and!; [done|done| |done].
        intros k' v' [[= -> ->]|Hin]%elem_of_cons; [|by eapply Hpre].
        by apply (Hb (k, v)).
  - specialize (IH best).
    destruct (idxmax_loop best s) as [[k1 v1]|].
    + destruct IH as [[-> Hall]|(pre & post & -> & Hb & Hpre & Hpost)].
      * left. split; [done|].
        intros k' v' [[=]|Hin]%elem_of_cons. by eapply Hall.
      * right. exists ((k, None) :: pre), post. split_and!; [done|done| |done].
        intros k' v' [[=]|Hin]%elem_of_cons. by eapply Hpre.
    + destruct IH as [-> Hall]. split; [done|].
      intros k' v' [[=]|Hin]%elem_of_cons. by eapply Hall.
Qed.

(** [idxmax] returns the label of the first maximum, and returns one as soon
    as some value is not NaN. *)
Lemma idxmax_first_maximum (s : list (Qc * float)) :
  match idxmax s with
  | None => ∀ k v, (k, Some v) ∉ s
  | Some k =>
      ∃ v pre post,
        s = pre ++ (k, Some v) :: post ∧
        (∀ k' v', (k', Some v') ∈ pre → (v' < v)%Qc) ∧
        (∀ k' v', (k', Some v') ∈ post → (v' ≤ v)%Qc)
  end.
Proof.
  unfold idxmax. pose proof (idxmax_loop_spec s None) as Hspec.
  destruct (idxmax_loop None s) as [[k v]|]; simpl.
  - destruct Hspec as [[[=] _]|(pre & post & -> & _ & Hpre & Hpost)].
    by exists v, pre, post.
  - by destruct Hspec.
Qed.

(** C1 (as the code has it). Whenever some row of the joined growth table
    has an EC and a fresh weight that are not NaN, [optimal_ec] returns an EC
    value: it is a key of the grouped table and the EC of some row, its group
    has a mean, no group has a greater mean, the groups are in strictly
    ascending order of EC, and among the groups with that maximal mean it is
    the first, the one of least EC. *)
Theorem C1_optimal_ec_first_maximum (rows : list JoinedRow) :
  (∃ r, r ∈ rows ∧ is_Some (EC r) ∧
        is_Some (fresh_weight (measured (growth r)))) →
  ∃ ec m,
    optimal_ec rows = Some ec ∧
    (ec, Some m) ∈ groupby_mean (ec_weight rows) ∧
    (∃ r, r ∈ rows ∧ EC r = Some ec) ∧
    StronglySorted Qclt (groupby_mean (ec_weight rows)).*1 ∧
    (∀ k v, (k, Some v) ∈ groupby_mean (ec_weight rows) → (v ≤ m)%Qc) ∧
    (∀ k, (k, Some m) ∈ groupby_mean (ec_weight rows) → (ec ≤ k)%Qc).
Proof.
  intros (r & Hr & [k0 Hk0] & [w Hw]).
  set (cols := ec_weight rows).
  assert (Hsorted : StronglySorted Qclt (groupby_mean cols).*1)
    by (rewrite groupby_mean_keys; apply group_keys_ascending).
  assert (Hcol : (Some k0, Some w) ∈ cols).
  { unfold cols, ec_weight. apply list_elem_of_fmap. exists r.
    by rewrite Hk0, Hw. }
  assert (Hgroup : ∃ m0, (k0, Some m0) ∈ groupby_mean cols).
  { destruct (mean_is_Some (group_values k0 cols) w) as [m0 Hm0].
    - unfold group_values. apply list_elem_of_fmap.
      exists (Some k0, Some w). split; [done|].
      by apply list_elem_of_filter.
    - exists m0. apply elem_of_groupby_mean. split; [|done].
      apply elem_of_group_keys. by exists (Some w). }
  unfold optimal_ec. fold cols.
  pose proof (idxmax_first_maximum (groupby_mean cols)) as Hmax.
  destruct (idxmax (groupby_mean cols)) as [ec|]; cycle 1.
  { destruct Hgroup as [m0 Hm0]. by apply Hmax in Hm0. }
  destruct Hmax as (m & pre & post & Hsplit & Hpre & Hpost).
  assert (Hin : (ec, Some m) ∈ groupby_mean cols).
  { rewrite Hsplit. apply elem_of_app. right. apply list_elem_of_here. }
  exists ec, m. split_and!; [done|done| |done|..].
  - apply elem_of_groupby_mean in Hin as [Hkey _].
    apply elem_of_group_keys in Hkey as [v Hv].
    unfold cols, ec_weight in Hv.
    apply list_elem_of_fmap in Hv as (r' & [= Hec _] & Hr').
    by exists r'.
  - intros k v. rewrite Hsplit, elem_of_app, elem_of_cons.
    intros [Hin'|[[= _ ->]|Hin']]; [|done|by eapply Hpost].
    apply Qclt_le_weak. by eapply Hpre.
  - intros k. rewrite Hsplit at 1. rewrite elem_of_app, elem_of_cons.
    intros [Hin'|[[= ->]|Hin']]; [|done|].
    + apply Hpre in Hin'. by apply Qclt_not_eq in Hin'.
    + rewrite Hsplit, fmap_app, fmap_cons in Hsorted.
      apply StronglySorted_app_1_r in Hsorted.
      apply StronglySorted_inv in Hsorted as [_ Hall].
      rewrite Forall_forall in Hall. apply Qclt_le_weak, Hall.
      apply list_elem_of_fmap. by exists (k, Some m).
Qed.

Lemma C1_optimal_ec_first_maximum_witness :
  (∃ r, r ∈ growth_all env_AB growth_AB ∧ is_Some (EC r) ∧
        is_Some (fresh_weight (measured (growth r)))) ∧
  ∃ ec m,
    optimal_ec (growth_all env_AB growth_AB) = Some ec ∧
    (ec, Some m) ∈ groupby_mean (ec_weight (growth_all env_AB growth_AB)) ∧
    (∃ r, r ∈ growth_all env_AB growth_AB ∧ EC r = Some ec) ∧
    StronglySorted Qclt (groupby_mean (ec_weight (growth_all env_AB growth_AB))).*1 ∧
    (∀ k v, (k, Some v) ∈ groupby_mean (ec_weight (growth_all env_AB growth_AB)) →
            (v ≤ m)%Qc) ∧
    (∀ k, (k, Some m) ∈ groupby_mean (ec_weight (growth_all env_AB growth_AB)) →
          (ec ≤ k)%Qc).
Proof.
  assert (Hrow : ∃ r, r ∈ growth_all env_AB growth_AB ∧ is_Some (EC r) ∧
                      is_Some (fresh_weight (measured (growth r)))).
  { exists {| growth := sample_row "A" 10; EC := Some (Q2Qc (4 # 3)) |}.
    split_and!; [by_eval|by eexists..]. }
  split; [done|].
  exact (C1_optimal_ec_first_maximum (growth_all env_AB growth_AB) Hrow).
Defined.

(** C1, the claim as stated, fails: a workbook whose sheet for school A has
    no row gives an empty joined growth table; the grouped table is empty,
    [optimal_ec] returns no EC value, and the script ends on [ValueError]
    after the summary table, with no metric and no chart shown. *)
Lemma C1_empty_table_counterexample :
  load_environment_data (U := sample_unicode) (P := sample_parser)
    [csv_A; xlsx_A0] = inr env_A ∧
  load_growth_data (U := sample_unicode) [csv_A; xlsx_A0] = inr growth_A0 ∧
  growth_all env_A growth_A0 = [] ∧
  groupby_mean (ec_weight (growth_all env_A growth_A0)) = [] ∧
  optimal_ec (growth_all env_A growth_A0) = None ∧
  main (U := sample_unicode) (P := sample_parser) (Some [csv_A; xlsx_A0]) all_label
    = ([st_selectbox [all_label; py "A"]; st_title;
        st_dataframe_summary
          [{| summary_school := py "A";
              ec_target := Some (Q2Qc (133 # 100));
              individual_count := 0 |}]],
       inl (raised ValueError)).
Proof. split_and!; by_eval. Qed.

Lemma optimal_ec_is_row_EC (rows : list JoinedRow) (best : Qc) :
  optimal_ec rows = Some best → ∃ r, r ∈ rows ∧ EC r = Some best.
Proof.
  unfold optimal_ec. intros Hbest.
  pose proof (idxmax_first_maximum (groupby_mean (ec_weight rows))) as Hmax.
  rewrite Hbest in Hmax. destruct Hmax as (m & pre & post & Hsplit & _).
  assert (Hin : (best, Some m) ∈ groupby_mean (ec_weight rows)).
  { rewrite Hsplit. apply elem_of_app. right. apply list_elem_of_here. }
  apply elem_of_groupby_mean in Hin as [Hkey _].
  apply elem_of_group_keys in Hkey as [v Hv].
  apply list_elem_of_fmap in Hv as (r & [= Hec _] & Hr). by exists r.
Qed.

(** ** Rounding to two decimals *)

(** [round_half_even q] is an integer nearest to [100 q], the even one of the
    two when [100 q] lies half-way; stated on numerator and denominator. *)
Lemma round_half_even_nearest (q : Qc) :
  let n := round_half_even q in
  let a := Qnum q in
  let d := Z.pos (Qden q) in
  (2 * Z.abs (a * 100 - n * d) ≤ d)%Z ∧
  ((2 * Z.abs (a * 100 - n * d) = d)%Z → Z.even n = true).
Proof.
  intros n a d. subst n. unfold round_half_even. fold a d.
  assert (Hd : (0 < d)%Z) by (unfold d; lia).
  pose proof (Z.div_mod (a * 100) d ltac:(lia)) as Hdiv.
  pose proof (Z.mod_pos_bound (a * 100) d Hd) as Hmod.
  set (lo := (a * 100 / d)%Z) in *. set (r := ((a * 100) mod d)%Z) in *.
  repeat case_bool_decide.
  - split; [nia|]. intros Heq. nia.
  - split; [nia|]. intros Heq. nia.
  - assert (Hr : (2 * r = d)%Z) by lia.
    destruct (Z.even lo) eqn:Heven.
    + split; [nia|done].
    + split; [nia|]. intros _. rewrite Z.even_add, Heven. done.
Qed.

(** The rounded value is within 1/200 of the exact one. *)
Lemma round2_near (q : Qc) :
  let q' := Q2Qc (round_half_even q # 100) in
  (q' - q ≤ Q2Qc (1 # 200))%Qc ∧ (q - q' ≤ Q2Qc (1 # 200))%Qc.
Proof.
  intros q'. subst q'.
  destruct (round_half_even_nearest q) as [Hnear _].
  set (n := round_half_even q) in *.
  unfold Qcle, Qcminus, Qcplus, Qcopp, Q2Qc. cbn [this].
  repeat setoid_rewrite Qred_correct.
  destruct q as [[a d] Hcanon]. cbn [this Qnum Qden] in *.
  unfold Qle, Qplus, Qopp. cbn [Qnum Qden]. split; lia.
Qed.

(** C10. In the summary table the row of each common school has, as
    [EC 목표], the mean of the [ec] column of that school's environment
    frame rounded to two decimals (the nearest multiple of 1/100, within
    1/200 of the mean, the even multiple on a tie, NaN staying NaN), and, as
    [개체수], the number of rows of that school's growth frame. The rounding
    is in this table only: [ec_map], the [EC] column of the joined growth
    table and the value [optimal_ec] returns are the unrounded means. *)
Theorem C10_summary_rounds_growth_join_does_not
    (env_data : gmap str (list EnvRecord))
    (growth_data : gmap str (list GrowthRecord)) :
  (∀ i s, common_schools env_data growth_data !! i = Some s →
     ∃ recs rows,
       env_data !! s = Some recs ∧ growth_data !! s = Some rows ∧
       summary env_data growth_data !! i =
         Some {| summary_school := s;
                 ec_target := round2 (mean ((ec ∘ reading) <$> recs));
                 individual_count := length rows |} ∧
       ec_map env_data growth_data !! s = Some (mean ((ec ∘ reading) <$> recs))) ∧
  length (summary env_data growth_data)
    = length (common_schools env_data growth_data) ∧
  round2 None = None ∧
  (∀ q, ∃ n,
     round2 (Some q) = Some (Q2Qc (n # 100)) ∧
     (Q2Qc (n # 100) - q ≤ Q2Qc (1 # 200))%Qc ∧
     (q - Q2Qc (n # 100) ≤ Q2Qc (1 # 200))%Qc ∧
     ((2 * Z.abs (Qnum q * 100 - n * Z.pos (Qden q)) = Z.pos (Qden q))%Z →
      Z.even n = true)) ∧
  (tagged growth_data →
   ∀ r, r ∈ growth_all env_data growth_data →
     ∃ recs, env_data !! school (growth r) = Some recs ∧
             EC r = mean ((ec ∘ reading) <$> recs)) ∧
  (∀ best, optimal_ec (growth_all env_data growth_data) = Some best →
     ∃ r, r ∈ growth_all env_data growth_data ∧ EC r = Some best).
Proof.
  split_and!.
  - intros i s Hi.
    assert (Hs : s ∈ common_schools env_data growth_data)
      by by eapply list_elem_of_lookup_2.
    destruct (common_schools_lookup _ _ _ Hs) as (recs & rows & Hrecs & Hrows).
    exists recs, rows. split_and!; [done|done|..].
    + unfold summary. rewrite list_lookup_fmap, Hi. simpl.
      unfold school_ec_mean, env_column, growth_frame.
      by rewrite (lookup_total_correct _ _ _ Hrecs),
                 (lookup_total_correct _ _ _ Hrows).
    + rewrite ec_map_lookup, decide_True by done.
      unfold school_ec_mean, env_column.
      by rewrite (lookup_total_correct _ _ _ Hrecs).
  - unfold summary. apply length_fmap.
  - done.
  - intros q. exists (round_half_even q).
    destruct (round2_near q) as [Hup Hdown].
    destruct (round_half_even_nearest q) as [_ Htie].
    done.
  - intros Htag r Hr.
    destruct (elem_of_growth_all _ _ _ Htag Hr) as (rows & Hs & _ & _ & HEC).
    destruct (common_schools_lookup _ _ _ Hs) as (recs & _ & Hrecs & _).
    exists recs. split; [done|]. rewrite HEC.
    unfold school_ec_mean, env_column.
    by rewrite (lookup_total_correct _ _ _ Hrecs).
  - intros best. apply optimal_ec_is_row_EC.
Qed.

Lemma C10_summary_rounds_growth_join_does_not_witness :
  common_schools env_AB growth_AB !! 0 = Some (py "A") ∧
  summary env_AB growth_AB !! 0 =
    Some {| summary_school := py "A";
            ec_target := Some (Q2Qc (133 # 100));
            individual_count := 2 |} ∧
  ec_map env_AB growth_AB !! py "A" = Some (Some (Q2Qc (4 # 3))).
Proof.
  assert (Hi : common_schools env_AB growth_AB !! 0 = Some (py "A")) by by_eval.
  destruct (proj1 (C10_summary_rounds_growth_join_does_not env_AB growth_AB)
              0 (py "A") Hi) as (recs & rows & Hrecs & Hrows & Hsum & Hmap).
  assert (recs = [sample_record 100 1; sample_record 200 1; sample_record 300 2])
    as -> by (apply (inj Some); rewrite <- Hrecs; by_eval).
  assert (rows = [sample_row "A" 10; sample_row "A" 12])
    as -> by (apply (inj Some); rewrite <- Hrows; by_eval).
  split; [done|]. split.
  - rewrite Hsum. by_eval.
  - rewrite Hmap. by_eval.
Defined.

(** ** The two-school scenario *)

(** C3. Two schools: A with environment EC readings 1, 1, 2 and fresh
    weights 10, 12; B with EC readings 2, 2 and fresh weights 20, 22 (the
    other columns are arbitrary). Then the common schools are A, B; the EC
    mean of A is 4/3 and that of B is 2; the joined growth table is A's rows
    with EC 4/3 followed by B's rows with EC 2; the grouped mean fresh
    weights are 11 for EC 4/3 and 21 for EC 2; and [optimal_ec] is 2. *)
Theorem C3_two_school_scenario
    (recsA recsB : list EnvRecord) (rowsA rowsB : list GrowthRecord) :
  (ec ∘ reading) <$> recsA = [Some (of_Z 1); Some (of_Z 1); Some (of_Z 2)] →
  (ec ∘ reading) <$> recsB = [Some (of_Z 2); Some (of_Z 2)] →
  (λ r, (school r, fresh_weight (measured r))) <$> rowsA
    = [(py "A", Some (of_Z 10)); (py "A", Some (of_Z 12))] →
  (λ r, (school r, fresh_weight (measured r))) <$> rowsB
    = [(py "B", Some (of_Z 20)); (py "B", Some (of_Z 22))] →
  let env_data : gmap str (list EnvRecord) :=
    {[ py "A" := recsA; py "B" := recsB ]} in
  let growth_data : gmap str (list GrowthRecord) :=
    {[ py "A" := rowsA; py "B" := rowsB ]} in
  common_schools env_data growth_data = [py "A"; py "B"] ∧
  school_ec_mean env_data (py "A") = Some (Q2Qc (4 # 3)) ∧
  school_ec_mean env_data (py "B") = Some (of_Z 2) ∧
  growth_all env_data growth_data
    = ((λ r, {| growth := r; EC := Some (Q2Qc (4 # 3)) |}) <$> rowsA)
      ++ ((λ r, {| growth := r; EC := Some (of_Z 2) |}) <$> rowsB) ∧
  groupby_mean (ec_weight (growth_all env_data growth_data))
    = [(Q2Qc (4 # 3), Some (of_Z 11)); (of_Z 2, Some (of_Z 21))] ∧
  optimal_ec (growth_all env_data growth_data) = Some (of_Z 2).
Proof.
  intros HecA HecB HrowsA HrowsB env_data growth_data.
  destruct rowsA as [|a1 [|a2 [|]]]; try done.
  destruct rowsB as [|b1 [|b2 [|]]]; try done.
  injection HrowsA as Hsa1 Hwa1 Hsa2 Hwa2.
  injection HrowsB as Hsb1 Hwb1 Hsb2 Hwb2.
  assert (Hne : py "A" ≠ py "B") by by_eval.
  assert (HeA : env_data !! py "A" = Some recsA) by apply lookup_insert_eq.
  assert (HeB : env_data !! py "B" = Some recsB).
  { unfold env_data. rewrite lookup_insert_ne by done. apply lookup_singleton_eq. }
  assert (HgA : growth_data !! py "A" = Some [a1; a2]) by apply lookup_insert_eq.
  assert (HgB : growth_data !! py "B" = Some [b1; b2]).
  { unfold growth_data. rewrite lookup_insert_ne by done. apply lookup_singleton_eq. }
  assert (Hcommon : common_schools env_data growth_data = [py "A"; py "B"]).
  { unfold common_schools, env_data, growth_data.
    rewrite !dom_insert_L, !dom_singleton_L. by_eval. }
  assert (HmA : school_ec_mean env_data (py "A") = Some (Q2Qc (4 # 3))).
  { unfold school_ec_mean, env_column.
    rewrite (lookup_total_correct _ _ _ HeA), HecA. by_eval. }
  assert (HmB : school_ec_mean env_data (py "B") = Some (of_Z 2)).
  { unfold school_ec_mean, env_column.
    rewrite (lookup_total_correct _ _ _ HeB), HecB. by_eval. }
  assert (HmapA : ec_map env_data growth_data !! py "A" = Some (Some (Q2Qc (4 # 3)))).
  { rewrite ec_map_lookup, Hcommon, HmA. by rewrite decide_True by by_eval. }
  assert (HmapB : ec_map env_data growth_data !! py "B" = Some (Some (of_Z 2))).
  { rewrite ec_map_lookup, Hcommon, HmB. by rewrite decide_True by by_eval. }
  assert (Hall : growth_all env_data growth_data
    = ((λ r, {| growth := r; EC := Some (Q2Qc (4 # 3)) |}) <$> [a1; a2])
      ++ ((λ r, {| growth := r; EC := Some (of_Z 2) |}) <$> [b1; b2])).
  { unfold growth_all. rewrite Hcommon. cbn [mbind list_bind].
    unfold growth_frame.
    rewrite (lookup_total_correct _ _ _ HgA), (lookup_total_correct _ _ _ HgB).
    cbn [app fmap list_fmap].
    by rewrite Hsa1, Hsa2, Hsb1, Hsb2, HmapA, HmapB. }
  assert (Hcols : ec_weight (growth_all env_data growth_data)
    = [(Some (Q2Qc (4 # 3)), Some (of_Z 10)); (Some (Q2Qc (4 # 3)), Some (of_Z 12));
       (Some (of_Z 2), Some (of_Z 20)); (Some (of_Z 2), Some (of_Z 22))]).
  { rewrite Hall. unfold ec_weight. cbn [app fmap list_fmap growth EC].
    by rewrite Hwa1, Hwa2, Hwb1, Hwb2. }
  split_and!; [done..| |].
  - rewrite Hcols. by_eval.
  - unfold optimal_ec. rewrite Hcols. by_eval.
Qed.

Lemma C3_two_school_scenario_witness :
  load_environment_data (U := sample_unicode) (P := sample_parser)
    [csv_A; xlsx_AB; csv_B] = inr env_AB ∧
  load_growth_data (U := sample_unicode) [csv_A; xlsx_AB; csv_B] = inr growth_AB ∧
  common_schools env_AB growth_AB = [py "A"; py "B"] ∧
  school_ec_mean env_AB (py "A") = Some (Q2Qc (4 # 3)) ∧
  groupby_mean (ec_weight (growth_all env_AB growth_AB))
    = [(Q2Qc (4 # 3), Some (of_Z 11)); (of_Z 2, Some (of_Z 21))] ∧
  optimal_ec (growth_all env_AB growth_AB) = Some (of_Z 2).
Proof.
  split; [by_eval|]. split; [by_eval|].
  assert (He : env_AB = {[ py "A" := [sample_record 100 1; sample_record 200 1;
                                        sample_record 300 2];
                           py "B" := [sample_record 100 2; sample_record 200 2] ]})
    by by_eval.
  rewrite He. unfold growth_AB.
  pose proof (C3_two_school_scenario
    [sample_record 100 1; sample_record 200 1; sample_record 300 2]
    [sample_record 100 2; sample_record 200 2]
    [sample_row "A" 10; sample_row "A" 12]
    [sample_row "B" 20; sample_row "B" 22]
    eq_refl eq_refl eq_refl eq_refl) as (Hc & HmA & _ & _ & Hg & Ho).
  split; [exact Hc|]. split; [exact HmA|]. split; [exact Hg|exact Ho].
Defined.

(** * Further properties of the loaders *)

Section MoreLoaderFacts.
Context {U : UnicodeData} {P : DateParser}.

Lemma find_xlsx_first pre f post :
  Forall (λ g, ¬ is_xlsx g) pre → is_xlsx f →
  find_xlsx (pre ++ f :: post) = Some f.
Proof.
  intros Hpre Hf. induction Hpre as [|g pre Hg _ IH]; simpl.
  - by rewrite decide_True.
  - by rewrite decide_False.
Qed.

Lemma load_sheets_dom sheets growth_data :
  dom (load_sheets sheets growth_data)
  = dom growth_data ∪ list_to_set ((normalize_name ∘ fst) <$> sheets).
Proof.
  revert growth_data.
  induction sheets as [|[sheet rows] sheets IH]; intros growth_data; simpl.
  - set_solver.
  - rewrite IH, dom_insert_L. set_solver.
Qed.

Lemma load_sheets_other sheets growth_data k :
  (∀ sheet, sheet ∈ sheets.*1 → normalize_name sheet ≠ k) →
  load_sheets sheets growth_data !! k = growth_data !! k.
Proof.
  revert growth_data.
  induction sheets as [|[sheet rows] sheets IH]; intros growth_data Hother; simpl.
  - done.
  - rewrite IH.
    + apply lookup_insert_ne. apply Hother. simpl. apply list_elem_of_here.
    + intros sheet' Hin. apply Hother. simpl. by apply list_elem_of_further.
Qed.

Lemma load_sheets_app pre post growth_data :
  load_sheets (pre ++ post) growth_data
  = load_sheets post (load_sheets pre growth_data).
Proof.
  revert growth_data. induction pre as [|[sheet rows] pre IH]; intros; simpl; [done|].
  apply IH.
Qed.

Lemma load_environment_loop_filter files acc :
  load_environment_loop (filter is_csv files) acc = load_environment_loop files acc.
Proof.
  revert acc. induction files as [|f files IH]; intros acc; [reflexivity|].
  destruct (decide (is_csv f)) as [Hcsv|Hcsv].
  - rewrite (filter_cons_True is_csv f files Hcsv).
    cbn [load_environment_loop]. rewrite !(decide_True _ _ Hcsv).
    destruct (read_environment f); [done|apply IH].
  - rewrite (filter_cons_False is_csv f files Hcsv).
    cbn [load_environment_loop]. rewrite (decide_False _ _ Hcsv). apply IH.
Qed.

Lemma load_environment_loop_dom files acc env_data :
  load_environment_loop files acc = inr env_data →
  dom env_data = dom acc ∪ list_to_set (env_school <$> filter is_csv files).
Proof.
  revert acc. induction files as [|f files IH]; intros acc; simpl.
  - intros [= <-]. set_solver.
  - destruct (decide (lower (suffix (name f)) = py ".csv")) as [Hcsv|Hcsv].
    + rewrite filter_cons_True by done.
      destruct (read_environment f) as [|df]; [done|].
      intros Hload. rewrite (IH _ Hload), dom_insert_L.
      rewrite fmap_cons, list_to_set_cons. unfold env_school at 2. set_solver.
    + rewrite filter_cons_False by done. apply IH.
Qed.

End MoreLoaderFacts.

(** X1. The growth loader reads the first [.xlsx] entry of the directory
    listing and no other: whatever follows it, and whatever entries that are
    no workbooks precede it, the result is the one for that entry alone, the
    frames of its sheets or the exception when pandas cannot read it. *)
Theorem X1_first_workbook_only {U : UnicodeData}
    (pre post : list File) (f : File) :
  Forall (λ g, ¬ is_xlsx g) pre → is_xlsx f →
  load_growth_data (pre ++ f :: post) = load_growth_data [f] ∧
  load_growth_data (pre ++ f :: post)
  = match content f with
    | workbook sheets => inr (load_sheets sheets ∅)
    | _ => inl ValueError
    end.
Proof.
  intros Hpre Hf. unfold load_growth_data.
  rewrite (find_xlsx_first pre f post Hpre Hf).
  by rewrite (find_xlsx_first [] f [] (Forall_nil_2 _) Hf : find_xlsx [f] = Some f).
Qed.

Lemma X1_first_workbook_only_witness :
  Forall (λ g, ¬ is_xlsx g) [csv_A] ∧ is_xlsx xlsx_C ∧
  load_growth_data (U := sample_unicode) ([csv_A] ++ xlsx_C :: [xlsx_AB; csv_B])
  = inr growth_C.
Proof.
  assert (Hpre : Forall (λ g, ¬ is_xlsx g) [csv_A]) by (repeat constructor; by_eval).
  assert (Hf : is_xlsx xlsx_C) by by_eval.
  split; [done|]. split; [done|].
  rewrite (proj1 (X1_first_workbook_only (U := sample_unicode)
                    [csv_A] [xlsx_AB; csv_B] xlsx_C Hpre Hf)).
  by_eval.
Defined.

(** X2. The frames the growth loader makes of a workbook: their keys are the
    normalized sheet names; every row carries its key in the [학교] column;
    and the frame under a key is made of the rows, one for one and in order,
    of the last sheet whose name normalizes to that key (an earlier sheet of
    the same key is replaced). *)
Theorem X2_growth_frames_of_sheets {U : UnicodeData}
    (files : list File) (f : File) (sheets : list (str * list Measurement)) :
  find_xlsx files = Some f → content f = workbook sheets →
  ∃ growth_data,
    load_growth_data files = inr growth_data ∧
    dom growth_data = list_to_set ((normalize_name ∘ fst) <$> sheets) ∧
    tagged growth_data ∧
    ∀ pre sheet rows post,
      sheets = pre ++ (sheet, rows) :: post →
      (∀ later, later ∈ post.*1 → normalize_name later ≠ normalize_name sheet) →
      growth_data !! normalize_name sheet
      = Some ((λ r, {| school := normalize_name sheet; measured := r |}) <$> rows).
Proof.
  intros Hfind Hcontent.
  assert (Hload : load_growth_data files = inr (load_sheets sheets ∅)).
  { unfold load_growth_data. by rewrite Hfind, Hcontent. }
  exists (load_sheets sheets ∅). split_and!; [done| | |].
  - rewrite load_sheets_dom, dom_empty_L. by rewrite (left_id_L ∅ (∪)).
  - by eapply load_growth_data_tagged.
  - intros pre sheet rows post -> Hlast.
    rewrite load_sheets_app. simpl.
    rewrite load_sheets_other by done. apply lookup_insert_eq.
Qed.

Lemma X2_growth_frames_of_sheets_witness :
  find_xlsx [csv_A; xlsx_AB] = Some xlsx_AB ∧
  load_growth_data (U := sample_unicode) [csv_A; xlsx_AB] = inr growth_AB ∧
  dom growth_AB = {[ py "A"; py "B" ]} ∧
  tagged growth_AB.
Proof.
  assert (Hfind : find_xlsx [csv_A; xlsx_AB] = Some xlsx_AB) by by_eval.
  destruct (X2_growth_frames_of_sheets (U := sample_unicode)
              [csv_A; xlsx_AB] xlsx_AB _ Hfind eq_refl)
    as (growth_data & Hload & Hdom & Htag & _).
  assert (growth_data = growth_AB) as ->.
  { assert (Hg : load_growth_data (U := sample_unicode) [csv_A; xlsx_AB]
                 = inr growth_AB) by by_eval.
    rewrite Hg in Hload. by injection Hload. }
  split_and!; [done|done| |done].
  rewrite Hdom. by_eval.
Defined.

(** X3. The environment loader looks at the [.csv] entries only: dropping
    every other entry from the listing changes nothing; and when it returns
    a dictionary, the keys are exactly the school names of the [.csv]
    entries. *)
Theorem X3_environment_reads_csv_only {U : UnicodeData} {P : DateParser}
    (files : list File) :
  load_environment_data (filter is_csv files) = load_environment_data files ∧
  ∀ env_data,
    load_environment_data files = inr env_data →
    dom env_data = list_to_set (env_school <$> filter is_csv files).
Proof.
  split.
  - apply load_environment_loop_filter.
  - intros env_data Hload.
    rewrite (load_environment_loop_dom _ _ _ Hload), dom_empty_L.
    by rewrite (left_id_L ∅ (∪)).
Qed.

Lemma X3_environment_reads_csv_only_witness :
  load_environment_data (U := sample_unicode) (P := sample_parser)
    [xlsx_AB; csv_A; csv_B] = inr env_AB ∧
  filter is_csv [xlsx_AB; csv_A; csv_B] = [csv_A; csv_B] ∧
  dom env_AB = {[ py "A"; py "B" ]}.
Proof.
  assert (Hload : load_environment_data (U := sample_unicode) (P := sample_parser)
                    [xlsx_AB; csv_A; csv_B] = inr env_AB) by by_eval.
  split; [done|]. split; [by_eval|].
  rewrite (proj2 (X3_environment_reads_csv_only (U := sample_unicode)
                    (P := sample_parser) [xlsx_AB; csv_A; csv_B]) env_AB Hload).
  by_eval.
Defined.

(** * File names *)

Lemma rfind_absent (c : N) (s : str) : c ∉ s → rfind c s = None.
Proof.
  induction s as [|x s IH]; [done|]. intros Hnot.
  apply not_elem_of_cons in Hnot as [Hx Hs]. simpl.
  rewrite (IH Hs). by rewrite decide_False by done.
Qed.

Lemma rfind_last (c : N) (a ext : str) :
  c ∉ ext → rfind c (a ++ c :: ext) = Some (length a).
Proof.
  intros Hnot. induction a as [|x a IH]; simpl.
  - rewrite (rfind_absent _ _ Hnot). by rewrite decide_True.
  - by rewrite IH.
Qed.

Lemma split_first_absent (sep : N) (s : str) : sep ∉ s → split_first sep s = s.
Proof.
  induction s as [|x s IH]; [done|]. intros Hnot.
  apply not_elem_of_cons in Hnot as [Hx Hs]. simpl.
  rewrite decide_False by done. by rewrite IH.
Qed.

Lemma split_first_sep (sep : N) (s r : str) :
  sep ∉ s → split_first sep (s ++ sep :: r) = s.
Proof.
  induction s as [|x s IH]; simpl.
  - intros _. by rewrite decide_True.
  - intros Hnot. apply not_elem_of_cons in Hnot as [Hx Hs].
    rewrite decide_False by done. by rewrite IH.
Qed.

(** A name with a non-empty part before its last dot and a non-empty part
    after it splits there into stem and suffix. *)
Lemma stem_suffix_last_dot (a ext : str) :
  a ≠ [] → ext ≠ [] → dot ∉ ext →
  stem (a ++ dot :: ext) = a ∧ suffix (a ++ dot :: ext) = dot :: ext.
Proof.
  intros Ha Hext Hnot. unfold stem, suffix. rewrite (rfind_last _ _ _ Hnot).
  assert (0 < length a) by (destruct a; [done|simpl; lia]).
  assert (0 < length ext) by (destruct ext; [done|simpl; lia]).
  rewrite length_app. simpl.
  rewrite !bool_decide_eq_true_2 by lia. simpl.
  by rewrite take_app_length, drop_app_length.
Qed.

(** X4. How a file name decides what the loaders do with the file. For a
    name [school_rest.ext], where [school] has no underscore and [ext] is
    not empty and has no dot: the file is an environment file exactly when
    [ext] is [csv] in any mix of cases, a workbook exactly when [ext] is
    [xlsx] in any mix of cases, and its school key is the normalized
    [school], whatever [rest] is. A name [stem.ext] whose stem is not empty
    and has no underscore has the whole normalized stem as key. A name that
    starts with its only dot, such as [.csv], is never an environment
    file. *)
Theorem X4_file_name_convention {U : UnicodeData}
    (school rest ext : str) (c : Content) :
  underscore ∉ school → ext ≠ [] → dot ∉ ext →
  (let f := {| name := school ++ underscore :: rest ++ dot :: ext; content := c |} in
   (is_csv f ↔ lower ext = py "csv") ∧
   (is_xlsx f ↔ lower ext = py "xlsx") ∧
   env_school f = normalize_name school) ∧
  (school ≠ [] →
   let f := {| name := school ++ dot :: ext; content := c |} in
   (is_csv f ↔ lower ext = py "csv") ∧
   env_school f = normalize_name school) ∧
  ¬ is_csv {| name := dot :: ext; content := c |}.
Proof.
  intros Hschool Hext Hdot.
  split_and!.
  - intros f. unfold is_csv, is_xlsx, env_school, f. cbn [name].
    destruct (stem_suffix_last_dot (school ++ underscore :: rest) ext)
      as [Hstem Hsuffix]; [by destruct school|done|done|].
    rewrite <- app_assoc in Hstem, Hsuffix. simpl in Hstem, Hsuffix.
    rewrite Hstem, Hsuffix, (split_first_sep _ _ _ Hschool).
    split_and!; [| |done].
    + change (lower (dot :: ext)) with (dot :: lower ext).
      change (py ".csv") with (dot :: py "csv"). split; [by intros [= ->]|by intros ->].
    + change (lower (dot :: ext)) with (dot :: lower ext).
      change (py ".xlsx") with (dot :: py "xlsx"). split; [by intros [= ->]|by intros ->].
  - intros Hne f. unfold is_csv, env_school, f. cbn [name].
    destruct (stem_suffix_last_dot school ext) as [Hstem Hsuffix]; [done..|].
    rewrite Hstem, Hsuffix, (split_first_absent _ _ Hschool).
    split; [|done].
    change (lower (dot :: ext)) with (dot :: lower ext).
    change (py ".csv") with (dot :: py "csv"). split; [by intros [= ->]|by intros ->].
  - unfold is_csv, suffix. cbn [name].
    rewrite (rfind_last dot [] ext Hdot : rfind dot (dot :: ext) = Some 0).
    simpl. done.
Qed.

Lemma X4_file_name_convention_witness :
  (underscore ∉ py "A") ∧ py "CsV" ≠ [] ∧ (dot ∉ py "CsV") ∧
  py "A" ++ underscore :: py "env.2024" ++ dot :: py "CsV" = py "A_env.2024.CsV" ∧
  is_csv {| name := py "A" ++ underscore :: py "env.2024" ++ dot :: py "CsV";
            content := unreadable |} ∧
  env_school (U := sample_unicode)
    {| name := py "A" ++ underscore :: py "env.2024" ++ dot :: py "CsV";
       content := unreadable |} = py "A".
Proof.
  assert (H1 : underscore ∉ py "A") by by_eval.
  assert (H2 : py "CsV" ≠ []) by by_eval.
  assert (H3 : dot ∉ py "CsV") by by_eval.
  destruct (X4_file_name_convention (U := sample_unicode)
              (py "A") (py "env.2024") (py "CsV") unreadable H1 H2 H3)
    as ((Hcsv & _ & Hkey) & _).
  split_and!; [done..|by_eval| |].
  - apply Hcsv. by_eval.
  - rewrite Hkey. by_eval.
Defined.

(** * Further properties of the script *)

Section MoreScriptFacts.
Context {U : UnicodeData} {P : DateParser}.




(** The script once the common schools are known to exist. *)
Lemma main_overlap files selected env_data growth_data :
  load_environment_data files = inr env_data →
  load_growth_data files = inr growth_data →
  dom env_data ∩ dom growth_data ≠ ∅ →
  main (Some files) selected =
    (((if bool_decide (missing_env env_data growth_data ≠ ∅)
       then [st_warning (missing_env env_data growth_data)] else [])
      ++ [st_selectbox (all_label :: common_schools env_data growth_data);
          st_title], inr tt) : script unit) ≫= λ _,
    (tab1 env_data growth_data;;
     tab2 env_data growth_data selected;;
     tab3 env_data growth_data).
Proof.
  intros He Hg Hne. rewrite (main_loaded _ _ _ _ He Hg).
  rewrite (bool_decide_eq_false_2 (env_data = ∅)); cycle 1.
  { intros ->. apply Hne. rewrite dom_empty_L. apply (left_absorb_L _ _). }
  rewrite (bool_decide_eq_false_2 (growth_data = ∅)); cycle 1.
  { intros ->. apply Hne. rewrite dom_empty_L. apply (right_absorb_L _ _). }
  rewrite (reconcile_overlap _ _ Hne).
  unfold when, orb, mret, script_ret. rewrite !bind_value. cbv beta.
  rewrite !show_bind. cbn [fst snd].
  destruct (tab1 env_data growth_data ≫= _) as [shown r].
  cbn [fst snd]. by rewrite <- app_assoc.
Qed.

Lemma load_environment_no_csv files :
  Forall (λ f, ¬ is_csv f) files → load_environment_data files = inr ∅.
Proof.
  unfold load_environment_data. generalize (∅ : gmap str (list EnvRecord)).
  induction 1 as [|f files Hf _ IH]; simpl; [done|].
  by rewrite decide_False.
Qed.

End MoreScriptFacts.

(** X5. The no-data guard of lines 81-83. Once both loaders have returned,
    the run shows the no-data error and stops, having shown nothing else,
    exactly when one of the two dictionaries is empty; and a directory
    without any [.csv] entry gives the empty environment dictionary (no
    exception), so it ends this way whenever its workbook can be read. *)
Theorem X5_no_data_guard {U : UnicodeData} {P : DateParser}
    (files : list File) (selected : str)
    (env_data : gmap str (list EnvRecord))
    (growth_data : gmap str (list GrowthRecord)) :
  load_environment_data files = inr env_data →
  load_growth_data files = inr growth_data →
  (main (Some files) selected = ([st_error no_data_files], inl stopped)
   ↔ env_data = ∅ ∨ growth_data = ∅) ∧
  (Forall (λ f, ¬ is_csv f) files → env_data = ∅).
Proof.
  intros He Hg. split.
  - split.
    + intros Hmain.
      destruct (decide (env_data = ∅)) as [|Hne1]; [by left|].
      destruct (decide (growth_data = ∅)) as [|Hne2]; [by right|].
      exfalso. destruct (decide (dom env_data ∩ dom growth_data = ∅)) as [Hno|Hov].
      * rewrite (main_loaded _ _ _ _ He Hg) in Hmain.
        rewrite (reconcile_no_overlap _ _ Hno) in Hmain.
        by rewrite !bool_decide_eq_false_2 in Hmain by done.
      * rewrite (main_overlap _ _ _ _ He Hg Hov), bind_value in Hmain.
        by case_bool_decide.
    + intros Hempty. rewrite (main_loaded _ _ _ _ He Hg).
      destruct Hempty as [-> | ->].
      * by rewrite bool_decide_eq_true_2.
      * rewrite (bool_decide_eq_true_2 (∅ = ∅)) by done.
        by rewrite orb_true_r.
  - intros Hno. rewrite (load_environment_no_csv _ Hno) in He. by injection He.
Qed.

Lemma X5_no_data_guard_witness :
  load_environment_data (U := sample_unicode) (P := sample_parser) [xlsx_AB] = inr ∅ ∧
  load_growth_data (U := sample_unicode) [xlsx_AB] = inr growth_AB ∧
  main (U := sample_unicode) (P := sample_parser) (Some [xlsx_AB]) all_label
  = ([st_error no_data_files], inl stopped).
Proof.
  assert (He : load_environment_data (U := sample_unicode) (P := sample_parser)
                 [xlsx_AB] = inr ∅) by by_eval.
  assert (Hg : load_growth_data (U := sample_unicode) [xlsx_AB] = inr growth_AB)
    by by_eval.
  split; [done|]. split; [done|].
  apply (X5_no_data_guard (U := sample_unicode) (P := sample_parser)
           [xlsx_AB] all_label ∅ growth_AB He Hg). by left.
Defined.

Lemma total_plants_length
    (env_data : gmap str (list EnvRecord))
    (growth_data : gmap str (list GrowthRecord)) :
  total_plants env_data growth_data = length (growth_all env_data growth_data).
Proof.
  unfold total_plants, growth_all. rewrite length_fmap.
  induction (common_schools env_data growth_data) as [|s l IH]; [done|].
  cbn [foldr mbind list_bind]. by rewrite length_app, IH.
Qed.

(** X6. The three counts of the overview agree: the total of the metric
    [총 개체수] is the sum of the [개체수] column of the summary table, and it
    is the number of rows of the joined growth table the charts of the
    growth tab are drawn from. *)
Theorem X6_total_plants_counts_joined_rows
    (env_data : gmap str (list EnvRecord))
    (growth_data : gmap str (list GrowthRecord)) :
  total_plants env_data growth_data
  = sum_list (individual_count <$> summary env_data growth_data) ∧
  total_plants env_data growth_data
  = length (growth_all env_data growth_data).
Proof.
  split; [|apply total_plants_length].
  unfold total_plants, summary.
  induction (common_schools env_data growth_data) as [|s l IH]; [done|].
  cbn [foldr fmap list_fmap sum_list individual_count]. by rewrite IH.
Qed.








(** * Further properties of the aggregations *)







Lemma bind_nil_const {A B} (l : list A) : l ≫= (λ _, @nil B) = [].
Proof. induction l as [|x l IH]; [done|exact IH]. Qed.

Lemma bind_ext_in {A B} (f g : A → list B) (l : list A) :
  (∀ x, x ∈ l → f x = g x) → l ≫= f = l ≫= g.
Proof.
  induction l as [|x l IH]; [done|]. intros Hfg. cbn [mbind list_bind].
  rewrite (Hfg x) by apply list_elem_of_here.
  f_equal. apply IH. intros y Hy. apply Hfg. by apply list_elem_of_further.
Qed.

Lemma bind_add_to_one {B} (ks : list Qc) (k0 : Qc) (x : B) (f : Qc → list B) :
  NoDup ks → k0 ∈ ks →
  ks ≫= (λ k, if decide (k = k0) then x :: f k else f k) ≡ₚ x :: (ks ≫= f).
Proof.
  intros Hnd Hin. induction Hnd as [|k ks Hk Hnd IH]; [by apply elem_of_nil in Hin|].
  cbn [mbind list_bind]. destruct (decide (k = k0)) as [->|Hne].
  - cbn [app].
    rewrite (bind_ext_in _ f ks); [done|].
    intros k Hin'. rewrite decide_False; [done|]. by intros ->.
  - apply elem_of_cons in Hin as [->|Hin]; [done|].
    rewrite (IH Hin). by rewrite Permutation_middle.
Qed.

Lemma group_keys_NoDup (cols : list (float * float)) : NoDup (group_keys cols).
Proof.
  unfold group_keys. rewrite merge_sort_Permutation. apply NoDup_remove_dups.
Qed.

(** Grouping by keys that include every key of the table loses exactly the
    rows whose key is NaN. *)
Lemma group_values_partition (ks : list Qc) (cols : list (float * float)) :
  NoDup ks →
  (∀ k v, (Some k, v) ∈ cols → k ∈ ks) →
  ks ≫= (λ k, group_values k cols) ≡ₚ snd <$> filter (λ kv, is_Some kv.1) cols.
Proof.
  intros Hnd. induction cols as [|[key v] cols IH]; intros Hkeys.
  - unfold group_values. cbn. by rewrite bind_nil_const.
  - assert (Hrest : ∀ k v', (Some k, v') ∈ cols → k ∈ ks)
      by (intros k v' ?; eapply Hkeys; by apply list_elem_of_further).
    destruct key as [k0|].
    + rewrite filter_cons_True by (by eexists). rewrite fmap_cons. cbn [snd].
      rewrite <- (IH Hrest).
      rewrite <- (bind_add_to_one ks k0 v (λ k, group_values k cols));
        [|done|by eapply Hkeys, list_elem_of_here].
      rewrite (bind_ext_in (λ k, group_values k ((Some k0, v) :: cols))
                 (λ k, if decide (k = k0) then v :: group_values k cols
                       else group_values k cols)); [done|].
      intros k _. unfold group_values.
      destruct (decide (k = k0)) as [->|Hne].
      * by rewrite filter_cons_True.
      * rewrite filter_cons_False; [done|]. cbn. by intros [= ->].
    + rewrite filter_cons_False by (cbn; by intros [? ?]).
      rewrite <- (IH Hrest).
      rewrite (bind_ext_in (λ k, group_values k ((None, v) :: cols))
                 (λ k, group_values k cols)); [done|].
      intros k _. unfold group_values. by rewrite filter_cons_False.
Qed.

(** X12. Grouping by EC puts every row whose EC is not NaN in exactly one
    group and leaves out exactly the rows whose EC is NaN: the fresh weights
    of all groups together are, up to order, the fresh weights of the rows
    with an EC. A school whose environment frame has no EC reading at all
    has a NaN mean, so its growth rows count in [총 개체수] but are in no bar
    of the EC chart and play no part in the optimal EC. *)
Theorem X12_groups_drop_only_nan_ec (rows : list JoinedRow) :
  group_keys (ec_weight rows) ≫= (λ k, group_values k (ec_weight rows))
  ≡ₚ (fresh_weight ∘ measured ∘ growth) <$> filter (λ r, is_Some (EC r)) rows.
Proof.
  rewrite group_values_partition.
  - unfold ec_weight. induction rows as [|r rows IH]; [done|].
    rewrite fmap_cons. destruct (EC r) as [k|] eqn:HEC.
    + rewrite !filter_cons_True by (cbn; by rewrite ?HEC).
      rewrite !fmap_cons. cbn. by rewrite IH.
    + rewrite !filter_cons_False by (cbn; rewrite ?HEC; by intros [? ?]).
      done.
  - apply group_keys_NoDup.
  - intros k v Hin. apply elem_of_group_keys. by exists v.
Qed.

(** ** Means *)








(** ** Rounding *)

Lemma round_half_even_hundredth (n : Z) : round_half_even (Q2Qc (n # 100)) = n.
Proof.
  unfold round_half_even, Q2Qc. cbn [this].
  pose proof (Qred_correct (n # 100)) as Heq. unfold Qeq in Heq.
  cbn [Qnum Qden] in Heq.
  set (a := Qnum (Qred (n # 100))) in *.
  set (d := Qden (Qred (n # 100))) in *.
  assert (Hmul : (a * 100 = n * Z.pos d)%Z) by lia.
  rewrite Hmul, Z.div_mul, Z.mod_mul by lia.
  by rewrite bool_decide_eq_true_2 by lia.
Qed.

(** X14. Rounding for the summary table leaves a value that already has two
    decimals as it is, so rounding twice is rounding once. *)
Theorem X14_round2_keeps_two_decimals :
  (∀ n : Z, round2 (Some (Q2Qc (n # 100))) = Some (Q2Qc (n # 100))) ∧
  (∀ x : float, round2 (round2 x) = round2 x).
Proof.
  assert (Hfix : ∀ n : Z, round2 (Some (Q2Qc (n # 100))) = Some (Q2Qc (n # 100))).
  { intros n. unfold round2. cbn [fmap option_fmap option_map].
    by rewrite round_half_even_hundredth. }
  split; [done|]. intros [q|]; [|done].
  unfold round2 at 2. cbn [fmap option_fmap option_map]. apply Hfix.
Qed.

(** ** Hangul names *)

Section HangulFacts.
Context {U : UnicodeData} (HU : coherent).
Hypothesis jamo_starters : ∀ c,
  is_L c || is_V c || is_T c = true → combining c = 0%N.

Lemma canonical_order_starters (s : str) :
  Forall (λ c, combining c = 0%N) s → canonical_order s = s.
Proof.
  induction 1 as [|c s Hc _ IH]; [done|]. simpl.
  by rewrite IH, reorder_insert_starter.
Qed.

Lemma nfd_jamo (s : str) :
  Forall (λ c, is_L c || is_V c || is_T c = true ∧ is_syllable c = false) s →
  nfd s = s.
Proof.
  intros Hs. unfold nfd. rewrite decompose_inert.
  - apply canonical_order_starters. eapply Forall_impl; [done|].
    intros c [Hj _]. by apply jamo_starters.
  - eapply Forall_impl; [done|]. intros c [Hj Hsyl].
    by apply decompose_char_jamo.
Qed.

Lemma hangul_decompose_all_jamo (s : N) :
  is_syllable s = true →
  Forall (λ c, is_L c || is_V c || is_T c = true ∧ is_syllable c = false)
         (hangul_decompose s).
Proof.
  intros Hs. apply Forall_forall. intros c Hc.
  by apply (hangul_decompose_jamo s c).
Qed.

Lemma hangul_index (i : N) :
  (((i / 588) * 21 + (i mod 588) / 28) * 28 + i mod 28 = i)%N.
Proof. divmod. Qed.

Lemma hangul_compose_LV (i : N) :
  (i < 11172)%N →
  hangul_compose (LBase + i / NCount) (VBase + (i mod NCount) / TCount)
  = Some (SBase + (i - i mod TCount))%N.
Proof.
  intros Hi. unfold hangul_compose.
  assert (is_L (LBase + i / NCount) = true) as ->.
  { unfold_hangul. apply andb_true_iff. rewrite !bool_decide_eq_true. divmod. }
  assert (is_V (VBase + (i mod NCount) / TCount) = true) as ->.
  { unfold_hangul. apply andb_true_iff. rewrite !bool_decide_eq_true. divmod. }
  cbn [andb]. f_equal. unfold_hangul.
  pose proof (hangul_index i). divmod.
Qed.

Lemma hangul_compose_LVT (i : N) :
  (i < 11172)%N → (i mod TCount ≠ 0)%N →
  hangul_compose (SBase + (i - i mod TCount)) (TBase + i mod TCount)
  = Some (SBase + i)%N.
Proof.
  intros Hi HT. unfold hangul_compose.
  assert (is_L (SBase + (i - i mod TCount)) = false) as ->.
  { unfold_hangul. apply andb_false_iff. rewrite !bool_decide_eq_false. lia. }
  cbn [andb].
  assert (is_syllable (SBase + (i - i mod TCount)) = true) as ->.
  { unfold_hangul. apply andb_true_iff. rewrite !bool_decide_eq_true. divmod. }
  assert (is_T (TBase + i mod TCount) = true) as ->.
  { unfold_hangul. apply andb_true_iff. rewrite !bool_decide_eq_true. divmod. }
  rewrite bool_decide_eq_true_2 by (unfold_hangul; divmod).
  cbn [andb]. f_equal. unfold_hangul. divmod.
Qed.

Lemma canonical_composition_hangul (s : N) :
  is_syllable s = true → canonical_composition (hangul_decompose s) = [s].
Proof.
  intros Hs.
  pose proof (hangul_decompose_all_jamo s Hs) as Hjamo.
  apply andb_true_iff in Hs as [Hlo Hhi].
  apply bool_decide_eq_true in Hlo, Hhi.
  assert (Hi : (s - SBase < 11172)%N) by (revert Hlo Hhi; unfold_hangul; lia).
  assert (Hs : (SBase + (s - SBase))%N = s) by (revert Hlo; unfold_hangul; lia).
  revert Hjamo. unfold hangul_decompose.
  set (i := (s - SBase)%N) in *.
  pose proof (hangul_compose_LV i Hi) as HLV.
  case_bool_decide as HT; intros Hjamo;
    apply Forall_cons in Hjamo as [[HjL _] _];
    cbn [canonical_composition];
    rewrite (bool_decide_eq_true_2 _ (jamo_starters _ HjL));
    cbn [compose_run blocked existsb]; unfold compose_pair; rewrite HLV.
  - f_equal. rewrite <- Hs. revert HT. unfold_hangul. lia.
  - rewrite hangul_compose_LVT; [by rewrite Hs|done|].
    revert HT. unfold_hangul. lia.
Qed.

End HangulFacts.

(** X15. What [normalize_name] is for. Over a coherent character database
    whose conjoining jamo are starters, a Hangul syllable written as its
    separate jamo (the decomposed form, as some file systems store file
    names) and the same syllable written as one precomposed character both
    normalize to the precomposed character: the two spellings of a school
    name give the same key. *)
Theorem X15_hangul_spellings_same_key {U : UnicodeData} :
  coherent →
  (∀ c, is_L c || is_V c || is_T c = true → combining c = 0%N) →
  ∀ s, is_syllable s = true →
    normalize_name (hangul_decompose s) = [s] ∧ normalize_name [s] = [s].
Proof.
  intros HU Hjamo s Hs. unfold normalize_name, nfc.
  assert (Hnfd : nfd (hangul_decompose s) = hangul_decompose s)
    by (apply nfd_jamo; [done..|by apply hangul_decompose_all_jamo]).
  assert (Hnfd' : nfd [s] = hangul_decompose s).
  { unfold nfd. rewrite decompose_cons. unfold decompose_char. rewrite Hs.
    change (decompose []) with (@nil N). rewrite app_nil_r.
    unfold nfd in Hnfd. rewrite decompose_inert in Hnfd; [done|].
    eapply Forall_impl; [by apply hangul_decompose_all_jamo|].
    intros c [Hj Hsyl]. by apply decompose_char_jamo. }
  rewrite Hnfd, Hnfd'. split; by apply canonical_composition_hangul.
Qed.

Lemma X15_hangul_spellings_same_key_witness :
  coherent (U := sample_unicode) ∧
  (∀ c, is_L c || is_V c || is_T c = true → sample_combining c = 0%N) ∧
  is_syllable 0xD55C = true ∧
  hangul_decompose 0xD55C = [0x1112; 0x1161; 0x11AB]%N ∧
  normalize_name (U := sample_unicode) [0x1112; 0x1161; 0x11AB]%N = [0xD55C]%N.
Proof.
  assert (Hjamo : ∀ c, is_L c || is_V c || is_T c = true → sample_combining c = 0%N).
  { intros c. unfold sample_combining. unfold_hangul.
    rewrite !orb_true_iff, !andb_true_iff, !bool_decide_eq_true. intros Hc.
    by rewrite !bool_decide_eq_false_2 by lia. }
  split; [exact sample_unicode_coherent|]. split; [done|].
  split; [done|]. split; [done|].
  exact (proj1 (X15_hangul_spellings_same_key (U := sample_unicode)
                  sample_unicode_coherent Hjamo 0xD55C%N eq_refl)).
Defined.
